(** * Outbound message dispatch and open-group identifiers of session-desktop

    A shallow embedding of
    - [ts/session/sending/MessageQueue.ts]: the class [MessageQueue], and
    - [ts/opengroup/utils/OpenGroupUtils.ts]: the open group v2 conversation
      identifiers and the regular expressions that recognise them,
    followed by the properties proved about them. *)

From Stdlib Require Import ZArith Lia Bool Ascii String List.
From stdpp Require Import base gmap strings list fin_maps.
Import ListNotations.

Local Open Scope string_scope.
Local Open Scope list_scope.

(** ** Part I: [MessageQueue.ts] *)

Module MessageQueue.

(** *** Values *)

(** A [PubKey] is an object: [new PubKey(d)] allocates one.  [ref] is the
    identity of the object (its address), [key] the key material it wraps.
    JavaScript's [Map] and lodash's [_.xor] compare objects by identity. *)
Record PubKey := { ref : nat; key : string }.

(** The classes of [../messages/outgoing] that the queue tests with
    [instanceof].  [OpenGroupMessage] is not a [ContentMessage]; the other
    four are. *)
Inductive MessageClass :=
| ContentMessageC
| ClosedGroupMessageC
| OpenGroupMessageC
| SessionResetMessageC
| SyncMessageC.

Record Message := {
  identifier : string;
  timestamp : Z;
  mclass : MessageClass;
  groupId : string
}.

Definition instanceof (m : Message) (c : MessageClass) : bool :=
  match mclass m, c with
  | ContentMessageC, ContentMessageC
  | ClosedGroupMessageC, ClosedGroupMessageC
  | OpenGroupMessageC, OpenGroupMessageC
  | SessionResetMessageC, SessionResetMessageC
  | SyncMessageC, SyncMessageC => true
  | _, _ => false
  end.

(** What the parameter [devices] of [sendMessageToDevices] holds at run time:
    its declared type is [Array<PubKey>], but [sendToGroup] passes the number
    [5]. *)
Inductive JsValue :=
| JsNumber (n : Z)
| JsArray (a : list PubKey).

(** How a call ends: it returns, or it throws (an async function then rejects
    its promise). *)
Inductive Completion := Returned | Threw.

(** How a promise settles. *)
Inductive Outcome := Fulfilled | Rejected.

(** *** Collaborators

    The modules the queue calls into and that are not part of it: the session
    protocol, the conversation controller, the paired-device table, the user
    storage, the outgoing message classes and the job queue class. *)
Record Collaborators := {
  (** [SessionProtocol.hasSession(device)] *)
  hasSession : PubKey -> bool;
  (** [ConversationController.get(id).isMediumGroup()] *)
  isMediumGroup : string -> bool;
  (** [Data.getPairedDevicesFor(key)] *)
  getPairedDevicesFor : string -> list string;
  (** [textsecure.storage.user.getNumber()] *)
  getNumber : string;
  (** [receiver.canSync(argument)]; the argument is [None] for [canSync()] *)
  canSync : Message -> option Message -> bool;
  (** [SyncMessage.from(message)] *)
  SyncMessage_from : Message -> Message;
  (** [jobQueue.has(id)] on a queue that holds a job whose closure sends a
      message with the identifier [id]: whether the queue finds that job
      under [id].  The class [JobQueue] is not among the sources, and
      [processPending] hands [add] the closure only. *)
  findsJob : string -> bool
}.

(** *** lodash

    [_.xor(a, b)] as lodash computes it: an argument that is not array-like
    ([undefined]) is dropped; a single array is deduplicated; two arrays give
    the elements of each that are not in the other, deduplicated, in order of
    occurrence.  Elements are compared with SameValueZero, which on objects
    is identity. *)
Definition sameValueZero (a b : PubKey) : bool := Nat.eqb (ref a) (ref b).

Definition arrayIncludes (l : list PubKey) (x : PubKey) : bool :=
  existsb (sameValueZero x) l.

Definition baseDifference (a b : list PubKey) : list PubKey :=
  List.filter (fun x => negb (arrayIncludes b x)) a.

Fixpoint baseUniq_from (seen l : list PubKey) : list PubKey :=
  match l with
  | [] => []
  | x :: r =>
      if arrayIncludes seen x then baseUniq_from seen r
      else x :: baseUniq_from (x :: seen) r
  end.

Definition baseUniq (l : list PubKey) : list PubKey := baseUniq_from [] l.

Definition xor (a : list PubKey) (b : option (list PubKey)) : list PubKey :=
  match b with
  | None => baseUniq a
  | Some b => baseUniq (baseDifference a b ++ baseDifference b a)
  end.

(** *** The pending message cache *)

(** Modelled from the spec: the class [PendingMessageCache]
    ([./PendingMessageCache]) is not among the sources.  Spec 3 and 4.3: a
    pending entry is a (device, message) pair, the store keeps the entries in
    staging order, devices are compared by key material, and staging the same
    (device, identifier) twice leaves one entry. *)
Record PendingEntry := { device : string; message : Message }.

Definition entry_identifier (e : PendingEntry) : string :=
  identifier (message e).

Definition same_entry (a b : PendingEntry) : bool :=
  String.eqb (device a) (device b)
  && String.eqb (entry_identifier a) (entry_identifier b).

(** Modelled from the spec: [stage], the method [add] of the cache. *)
Definition cache_add (c : list PendingEntry) (d : PubKey) (m : Message)
  : list PendingEntry :=
  let e := {| device := key d; message := m |} in
  if existsb (same_entry e) c then c else c ++ [e].

(** Modelled from the spec: [drain], the method [getForDevice]. *)
Definition cache_getForDevice (c : list PendingEntry) (d : PubKey)
  : list PendingEntry :=
  List.filter (fun e => String.eqb (device e) (key d)) c.

(** Modelled from the spec: [acknowledge], the method [remove]. *)
Definition cache_remove (c : list PendingEntry) (e : PendingEntry)
  : list PendingEntry :=
  List.filter (fun e' => negb (same_entry e e')) c.

(** *** Job queues *)

(** Modelled from the spec: the class [JobQueue] ([../utils]) is not among
    the sources.  Spec 3 and 4.4: a queue owns the FIFO of the jobs that are
    outstanding, [has] tells whether a job for an identifier is among them,
    and a job leaves the FIFO when it settles.  [qref] is the identity of the
    queue object; a job is the entry its closure captured. *)
Record JobQueue := { qref : nat; jobs : list PendingEntry }.

(** Modelled from the spec: the test of 4.4 for an outstanding job: a job
    whose closure sends a message with the identifier [id] is in the
    FIFO. *)
Definition JobQueue_has (q : JobQueue) (id : string) : bool :=
  existsb (fun j => String.eqb (entry_identifier j) id) (jobs q).

(** Modelled from the spec: [add] puts the job at the end of the FIFO. *)
Definition JobQueue_add (q : JobQueue) (j : PendingEntry) : JobQueue :=
  {| qref := qref q; jobs := jobs q ++ [j] |}.

(** [jobQueue.has(id)] as the queue answers it: the job is outstanding and
    the queue finds it under [id]. *)
Definition JobQueue_finds (W : Collaborators) (q : JobQueue) (id : string) : bool :=
  findsJob W id && JobQueue_has q id.

(** *** The state of a [MessageQueue] and of what it acts on *)

Record State := {
  (** the next free object identity *)
  heap_next : nat;
  (** [this.jobQueues : Map<PubKey, JobQueue>], keyed by object identity *)
  jobQueues : gmap nat JobQueue;
  (** [this.pendingMessageCache] *)
  pendingMessageCache : list PendingEntry;
  (** the calls of [SessionProtocol.sendSessionRequestIfNeeded], in order *)
  sessionRequests : list PubKey;
  (** the calls of [MessageSender.send], in order *)
  sent : list PendingEntry
}.

Definition set_heap_next (s : State) (n : nat) : State :=
  {| heap_next := n; jobQueues := jobQueues s;
     pendingMessageCache := pendingMessageCache s;
     sessionRequests := sessionRequests s; sent := sent s |}.

Definition set_jobQueues (s : State) (m : gmap nat JobQueue) : State :=
  {| heap_next := heap_next s; jobQueues := m;
     pendingMessageCache := pendingMessageCache s;
     sessionRequests := sessionRequests s; sent := sent s |}.

Definition set_pendingMessageCache (s : State) (c : list PendingEntry) : State :=
  {| heap_next := heap_next s; jobQueues := jobQueues s;
     pendingMessageCache := c;
     sessionRequests := sessionRequests s; sent := sent s |}.

Definition set_sessionRequests (s : State) (l : list PubKey) : State :=
  {| heap_next := heap_next s; jobQueues := jobQueues s;
     pendingMessageCache := pendingMessageCache s;
     sessionRequests := l; sent := sent s |}.

Definition set_sent (s : State) (l : list PendingEntry) : State :=
  {| heap_next := heap_next s; jobQueues := jobQueues s;
     pendingMessageCache := pendingMessageCache s;
     sessionRequests := sessionRequests s; sent := l |}.

(** The fields of a new [MessageQueue] whose cache holds [c]: no queue, no
    call made yet. *)
Definition init (c : list PendingEntry) : State :=
  {| heap_next := 0; jobQueues := ∅; pendingMessageCache := c;
     sessionRequests := []; sent := [] |}.

(** [new PubKey(k)] *)
Definition new_PubKey (s : State) (k : string) : State * PubKey :=
  (set_heap_next s (S (heap_next s)), {| ref := heap_next s; key := k |}).

(** [keys.map(d => new PubKey(d))] *)
Fixpoint map_new_PubKey (s : State) (keys : list string) : State * list PubKey :=
  match keys with
  | [] => (s, [])
  | k :: r =>
      let '(s1, d) := new_PubKey s k in
      let '(s2, ds) := map_new_PubKey s1 r in
      (s2, d :: ds)
  end.

(** *** The methods of [MessageQueue]

    An [await] is sequential composition, and the callbacks of a [forEach]
    run one after the other in the order of the array.  A delivery job does
    not run inside [processPending]: it stays in its queue until [settle]. *)

Definition getJobQueue (s : State) (d : PubKey) : State * JobQueue :=
  match jobQueues s !! ref d with
  | Some q => (s, q)
  | None =>
      let q := {| qref := heap_next s; jobs := [] |} in
      (set_jobQueues (set_heap_next s (S (heap_next s)))
         (<[ref d := q]> (jobQueues s)), q)
  end.

Definition getOurDevices (W : Collaborators) (s : State) : State * list PubKey :=
  let ourKey := getNumber W in
  let ourLinked := getPairedDevicesFor W ourKey in
  map_new_PubKey s ourLinked.

(** The body of the [forEach] of [processPending]: unless
    [jobQueue.has(message.identifier)], the job that sends the message is
    added; [add] gets the closure and no identifier.  The handlers on the
    promise of the job run when the job settles ([settle]). *)
Definition submit (W : Collaborators) (q : JobQueue) (m : PendingEntry) : JobQueue :=
  if negb (JobQueue_finds W q (entry_identifier m)) then JobQueue_add q m else q.

Definition processPending (W : Collaborators) (s : State) (d : PubKey) : State :=
  let messages := cache_getForDevice (pendingMessageCache s) d in
  let hasSession := hasSession W d in
  let isMediumGroup := isMediumGroup W (key d) in
  if negb isMediumGroup && negb hasSession then
    set_sessionRequests s (sessionRequests s ++ [d])
  else
    let '(s1, jobQueue) := getJobQueue s d in
    set_jobQueues s1
      (<[ref d := fold_left (submit W) messages jobQueue]> (jobQueues s1)).

Definition queue (W : Collaborators) (s : State) (d : PubKey) (m : Message) : State :=
  if instanceof m SessionResetMessageC then s
  else
    let s1 := set_pendingMessageCache s (cache_add (pendingMessageCache s) d m) in
    processPending W s1 d.

(** The result is [None] for the [undefined] of the bare [return]. *)
Definition sendSyncMessage (W : Collaborators) (s : State) (m : Message)
  : State * option (list PubKey) :=
  let syncMessage := SyncMessage_from W m in
  if negb (canSync W syncMessage None) then (s, None)
  else
    let '(s1, ourDevices) := getOurDevices W s in
    (fold_left (fun s d => queue W s d m) ourDevices s1, Some ourDevices).

(** [[...devices]] throws when [devices] is not iterable. *)
Definition sendMessageToDevices (W : Collaborators) (s : State)
    (devices : JsValue) (m : Message) : State * Completion :=
  match devices with
  | JsNumber _ => (s, Threw)
  | JsArray devices =>
      let currentDevices := devices in
      let '(s1, currentDevices) :=
        if canSync W m (Some m) then
          let syncMessage := SyncMessage_from W m in
          let '(s1, ourDevices) := sendSyncMessage W s syncMessage in
          (s1, xor currentDevices ourDevices)
        else (s, currentDevices) in
      (fold_left (fun s d => queue W s d m) currentDevices s1, Returned)
  end.

Definition sendUsingMultiDevice (W : Collaborators) (s : State)
    (user : PubKey) (m : Message) : State * Completion :=
  let userLinked := getPairedDevicesFor W (key user) in
  let '(s1, userDevices) := map_new_PubKey s userLinked in
  sendMessageToDevices W s1 (JsArray userDevices) m.

Definition send (W : Collaborators) (s : State) (d : PubKey) (m : Message)
  : State * Completion :=
  sendMessageToDevices W s (JsArray [d]) m.

(** [ConversationController.get(message.groupId)] is looked up and not
    used; the body of the branch for open groups is a comment. *)
Definition sendToGroup (W : Collaborators) (s : State) (m : Message)
  : State * Completion :=
  if negb (instanceof m OpenGroupMessageC) && negb (instanceof m ClosedGroupMessageC)
  then (s, Returned)
  else
    let '(s1, c1) :=
      if instanceof m ClosedGroupMessageC then
        let recipients := JsNumber 5 in
        sendMessageToDevices W s recipients m
      else (s, Returned) in
    match c1 with
    | Threw => (s1, Threw)
    | Returned =>
        if instanceof m OpenGroupMessageC then (s1, Returned) else (s1, Returned)
    end.

(** *** Settling a delivery job

    [promise.then(f).catch(g)]: [f] runs when the promise fulfils, [g] when
    it (or [f]) rejects, and the promise of the chain then fulfils. *)
Definition promise_then (p : State * Outcome) (f : State -> State)
  : State * Outcome :=
  match p with
  | (s, Fulfilled) => (f s, Fulfilled)
  | (s, Rejected) => (s, Rejected)
  end.

Definition promise_catch (p : State * Outcome) (g : State -> State)
  : State * Outcome :=
  match p with
  | (s, Fulfilled) => (s, Fulfilled)
  | (s, Rejected) => (g s, Fulfilled)
  end.

(** The oldest job of the queue of the device object [d] runs
    [MessageSender.send(message)], which settles as [o]; the queue forgets
    the job and the handlers that [processPending] attached run. *)
Definition settle (s : State) (d : nat) (o : Outcome) : State * Outcome :=
  match jobQueues s !! d with
  | Some q =>
      match jobs q with
      | j :: rest =>
          let s1 := set_sent s (sent s ++ [j]) in
          let s2 :=
            set_jobQueues s1
              (<[d := {| qref := qref q; jobs := rest |}]> (jobQueues s1)) in
          promise_catch
            (promise_then (s2, o)
               (fun s => set_pendingMessageCache s
                           (cache_remove (pendingMessageCache s) j)))
            (fun s => s)
      | [] => (s, Fulfilled)
      end
  | None => (s, Fulfilled)
  end.

(** [processAllPending], which the constructor starts.  The method
    [getDevices] of the cache is not among the sources: the array it returns
    is the argument [devices].  [Promise.all] over the mapped calls is one
    pass of [processPending] for each device, in the order of the array. *)
Definition processAllPending (W : Collaborators) (s : State) (devices : list PubKey)
  : State :=
  fold_left (processPending W) devices s.

End MessageQueue.

(** ** Part II: [OpenGroupUtils.ts] *)

Module OpenGroupUtils.

(** *** Regular expressions

    The patterns of the file use literals, character classes, grouping,
    alternation, [?], [*], [+] and [{2,64}]; none has a flag, an anchor or a
    back reference, so whether [test] or [match] finds a match is whether
    some substring of the subject is in the language of the pattern. *)
Inductive regex :=
| Never
| Empty
| Chr (c : ascii)
| Range (lo hi : ascii)
| Cat (r1 r2 : regex)
| Alt (r1 r2 : regex)
| Star (r : regex).

(** [r?], [r+], a literal, [r{n}], [r{0,n}] and [r{lo,hi}] *)
Definition Opt (r : regex) : regex := Alt r Empty.

Definition Plus (r : regex) : regex := Cat r (Star r).

Fixpoint Lit (s : string) : regex :=
  match s with
  | EmptyString => Empty
  | String c s' => Cat (Chr c) (Lit s')
  end.

Fixpoint Exactly (n : nat) (r : regex) : regex :=
  match n with
  | O => Empty
  | S n' => Cat r (Exactly n' r)
  end.

Fixpoint AtMost (n : nat) (r : regex) : regex :=
  match n with
  | O => Empty
  | S n' => Opt (Cat r (AtMost n' r))
  end.

Definition Repeat (lo hi : nat) (r : regex) : regex :=
  Cat (Exactly lo r) (AtMost (hi - lo) r).

Definition in_range (lo hi c : ascii) : bool :=
  (nat_of_ascii lo <=? nat_of_ascii c)%nat && (nat_of_ascii c <=? nat_of_ascii hi)%nat.

(** Matching by derivatives. *)
Fixpoint nullable (r : regex) : bool :=
  match r with
  | Never => false
  | Empty => true
  | Chr _ => false
  | Range _ _ => false
  | Cat r1 r2 => nullable r1 && nullable r2
  | Alt r1 r2 => nullable r1 || nullable r2
  | Star _ => true
  end.

Fixpoint deriv (c : ascii) (r : regex) : regex :=
  match r with
  | Never => Never
  | Empty => Never
  | Chr a => if Ascii.eqb a c then Empty else Never
  | Range lo hi => if in_range lo hi c then Empty else Never
  | Cat r1 r2 =>
      Alt (Cat (deriv c r1) r2) (if nullable r1 then deriv c r2 else Never)
  | Alt r1 r2 => Alt (deriv c r1) (deriv c r2)
  | Star r1 => Cat (deriv c r1) (Star r1)
  end.

(** The whole of [s] is in the language of [r]. *)
Fixpoint matches_all (r : regex) (s : string) : bool :=
  match s with
  | EmptyString => nullable r
  | String c s' => matches_all (deriv c r) s'
  end.

(** A match of [r] starts at the first character of [s]. *)
Fixpoint matches_prefix (r : regex) (s : string) : bool :=
  nullable r
  || match s with
     | EmptyString => false
     | String c s' => matches_prefix (deriv c r) s'
     end.

(** A match of [r] starts somewhere in [s]: [r.test(s)], and whether
    [s.match(r)] is not [null]. *)
Fixpoint search (r : regex) (s : string) : bool :=
  matches_prefix r s
  || match s with
     | EmptyString => false
     | String _ s' => search r s'
     end.

(** *** The patterns of the file *)

(** [(https?://)?] *)
Definition protocolRegex : regex :=
  Opt (Cat (Lit "http") (Cat (Opt (Chr "s")) (Lit "://"))).

(** [[a-zA-Z0-9]], [[a-zA-Z0-9-]], [[A-Za-z0-9]] and [[A-Za-z0-9-]] *)
Definition alnum : regex := Alt (Range "a" "z") (Alt (Range "A" "Z") (Range "0" "9")).

Definition alnum_hyphen : regex :=
  Alt (Range "a" "z") (Alt (Range "A" "Z") (Alt (Range "0" "9") (Chr "-"))).

Definition Alnum : regex := Alt (Range "A" "Z") (Alt (Range "a" "z") (Range "0" "9")).

Definition Alnum_hyphen : regex :=
  Alt (Range "A" "Z") (Alt (Range "a" "z") (Alt (Range "0" "9") (Chr "-"))).

Definition hostnameRegex : regex :=
  Cat (Star (Cat (Alt alnum (Cat alnum (Cat (Star alnum_hyphen) alnum))) (Chr ".")))
      (Alt Alnum (Cat Alnum (Cat (Star Alnum_hyphen) Alnum))).

(** [(:[0-9]+)?] *)
Definition portRegex : regex := Opt (Cat (Chr ":") (Plus (Range "0" "9"))).

(** [[0-9a-z_]{2,64}] *)
Definition roomIdChar : regex := Alt (Range "0" "9") (Alt (Range "a" "z") (Chr "_")).

Definition roomIdV2Regex : regex := Repeat 2 64 roomIdChar.

Definition openGroupV2ServerUrlRegex : regex :=
  Cat protocolRegex (Cat hostnameRegex portRegex).

Definition openGroupPrefix : string := "publicChat:".

Definition openGroupV2ConversationIdRegex : regex :=
  Cat (Lit openGroupPrefix)
    (Cat roomIdV2Regex
       (Cat (Chr "@") (Cat protocolRegex (Cat hostnameRegex portRegex)))).

(** *** Strings *)

(** [s.indexOf(c)] for a one-character string [c]: the index of the first
    occurrence, or [-1]. *)
Fixpoint indexOf_from (s : string) (c : ascii) (i : Z) : Z :=
  match s with
  | EmptyString => (-1)%Z
  | String a s' => if Ascii.eqb a c then i else indexOf_from s' c (i + 1)%Z
  end.

Definition indexOf (s : string) (c : ascii) : Z := indexOf_from s c 0%Z.

(** [s.slice(start, end)]; [end] is [None] when the call leaves it out.  A
    negative index counts from the end of the string, and both are clamped
    to the string. *)
Definition clamp_index (len i : Z) : Z :=
  if (i <? 0)%Z then Z.max (len + i) 0 else Z.min i len.

Definition slice (s : string) (start : Z) (end_ : option Z) : string :=
  let len := Z.of_nat (String.length s) in
  let from := clamp_index len start in
  let to := match end_ with
            | None => len
            | Some e => clamp_index len e
            end in
  substring (Z.to_nat from) (Z.to_nat (Z.max (to - from) 0)) s.

(** *** The functions *)

Inductive Result (A : Type) :=
| Ok (a : A)
| Throw (msg : string).

Arguments Ok {A} a.
Arguments Throw {A} msg.

Record OpenGroupRequestCommonType := { serverUrl : string; roomId : string }.

Definition isOpenGroupV2 (conversationId : string) : bool :=
  search openGroupV2ConversationIdRegex conversationId.

Definition getOpenGroupV2ConversationId (serverUrl roomId : string) : Result string :=
  if negb (search roomIdV2Regex roomId) then
    Throw "getOpenGroupV2ConversationId: Invalid roomId"
  else if negb (search openGroupV2ServerUrlRegex serverUrl) then
    Throw "getOpenGroupV2ConversationId: Invalid serverUrl"
  else Ok (openGroupPrefix ++ roomId ++ "@" ++ serverUrl)%string.

Definition getOpenGroupV2FromConversationId (conversationId : string)
  : Result OpenGroupRequestCommonType :=
  if isOpenGroupV2 conversationId then
    let atIndex := indexOf conversationId "@" in
    let roomId :=
      slice conversationId (Z.of_nat (String.length openGroupPrefix)) (Some atIndex) in
    let serverUrl := slice conversationId (atIndex + 1)%Z None in
    Ok {| serverUrl := serverUrl; roomId := roomId |}
  else Throw "Not a v2 open group convo id".

(** The characters of a room identifier and its length, as the comment on
    [roomIdV2Regex] gives them. *)
Definition is_roomIdChar (c : ascii) : bool :=
  in_range "0" "9" c || in_range "a" "z" c || Ascii.eqb "_" c.

Fixpoint string_forallb (p : ascii -> bool) (s : string) : bool :=
  match s with
  | EmptyString => true
  | String c s' => p c && string_forallb p s'
  end.

(** *** The other patterns and functions of the file *)

(** [[0-9a-z]{64}] *)
Definition publicKeyChar : regex := Alt (Range "0" "9") (Range "a" "z").

Definition publicKeyRegex : regex := Repeat 64 64 publicKeyChar.

Definition publicKeyParam : string := "public_key=".

(** The flag [m] of this pattern changes what [^] and [$] mean, and the
    pattern has neither. *)
Definition openGroupV2CompleteURLRegex : regex :=
  Cat openGroupV2ServerUrlRegex
    (Cat (Chr "/")
       (Cat roomIdV2Regex
          (Cat (Chr "?") (Cat (Lit publicKeyParam) publicKeyRegex)))).

(** The fields of an [OpenGroupV2Room] that [getCompleteUrlFromRoom]
    reads. *)
Record OpenGroupV2Room := {
  room_serverUrl : string;
  room_roomId : string;
  serverPublicKey : string
}.

Definition getCompleteUrlFromRoom (roomInfos : OpenGroupV2Room) : string :=
  (room_serverUrl roomInfos ++ "/" ++ room_roomId roomInfos ++ "?"
   ++ publicKeyParam ++ serverPublicKey roomInfos)%string.

(** [https?://], the pattern of [prefixify] behind its [^]: without the flag
    [m], a match of [^https?://] is a match of [https?://] that starts at
    the first character. *)
Definition httpPrefixRegex : regex :=
  Cat (Lit "http") (Cat (Opt (Chr "s")) (Lit "://")).

(** [hasSSL] is [None] when the call leaves the argument out; its default is
    [true]. *)
Definition prefixify (server : string) (hasSSL : option bool) : string :=
  let hasPrefix := matches_prefix httpPrefixRegex server in
  if hasPrefix then server
  else
    let hasSSL := match hasSSL with
                  | None => true
                  | Some b => b
                  end in
    ("http" ++ (if hasSSL then "s" else "") ++ "://" ++ server)%string.

End OpenGroupUtils.

(** ** Part III: the values the examples use *)

Module Examples.
Import MessageQueue.

(** Three device objects that exist before any call; [D1'] is a second
    object for the key of [D1]. *)
Definition D1 : PubKey := {| ref := 0; key := "D1" |}.
Definition D2 : PubKey := {| ref := 1; key := "D2" |}.
Definition D1' : PubKey := {| ref := 2; key := "D1" |}.

Definition content (id : string) : Message :=
  {| identifier := id; timestamp := 0; mclass := ContentMessageC; groupId := "" |}.

Definition m1 : Message := content "a".
Definition m2 : Message := content "b".

Definition sessionReset : Message :=
  {| identifier := "r"; timestamp := 0; mclass := SessionResetMessageC; groupId := "" |}.

Definition closedGroup : Message :=
  {| identifier := "c"; timestamp := 0; mclass := ClosedGroupMessageC; groupId := "g" |}.

Definition openGroup : Message :=
  {| identifier := "o"; timestamp := 0; mclass := OpenGroupMessageC; groupId := "" |}.

Definition Bob : PubKey := {| ref := 3; key := "bob" |}.

(** The sender is ["us"] and owns the devices [D1] and [D3]; the user
    ["bob"] owns [D1].  [session] tells whether every device has a session,
    [base] whether a content message says it can sync, and [wrapper] whether
    a sync wrapper reports that it can sync.  The queues find no job under
    the identifier of its message. *)
Definition world_of (session base wrapper : bool) : Collaborators :=
  {| hasSession := fun _ => session;
     isMediumGroup := fun _ => false;
     getPairedDevicesFor := fun k =>
       if String.eqb k "us" then ["D1"; "D3"]
       else if String.eqb k "bob" then ["D1"] else [];
     getNumber := "us";
     canSync := fun m arg =>
       match arg with
       | Some _ => match mclass m with ContentMessageC => base | _ => false end
       | None => wrapper
       end;
     SyncMessage_from := fun m =>
       {| identifier := String.append "sync:" (identifier m);
          timestamp := timestamp m; mclass := SyncMessageC; groupId := groupId m |};
     findsJob := fun _ => false |}.

Definition world (session wrapper : bool) : Collaborators :=
  world_of session true wrapper.

(** The collaborators [W], with a queue class that finds a queued job under
    the identifiers of [finds]. *)
Definition finding (finds : string -> bool) (W : Collaborators) : Collaborators :=
  {| hasSession := hasSession W;
     isMediumGroup := isMediumGroup W;
     getPairedDevicesFor := getPairedDevicesFor W;
     getNumber := getNumber W;
     canSync := canSync W;
     SyncMessage_from := SyncMessage_from W;
     findsJob := finds |}.

(** The collaborators of [world true true], except for what a sync wrapper
    reports: the wrapper of a plain message reports that it cannot sync, the
    wrapper of a wrapper that it can. *)
Definition world_rewrap : Collaborators :=
  {| hasSession := hasSession (world true true);
     isMediumGroup := isMediumGroup (world true true);
     getPairedDevicesFor := getPairedDevicesFor (world true true);
     getNumber := getNumber (world true true);
     canSync := fun m arg =>
       match arg with
       | Some _ => canSync (world true true) m arg
       | None => String.prefix "sync:sync:" (identifier m)
       end;
     SyncMessage_from := SyncMessage_from (world true true);
     findsJob := findsJob (world true true) |}.

(** A queue over the cache [c], with the four device objects allocated. *)
Definition start (c : list PendingEntry) : State := set_heap_next (init c) 4.

Definition staged (d : PubKey) (m : Message) : PendingEntry :=
  {| device := key d; message := m |}.

End Examples.

(** ** Part IV: what the properties are stated with *)

Import MessageQueue.
Import OpenGroupUtils.

(** *** Observations of a queue *)

(** A message with identifier [id] is staged for the device key [k]. *)
Definition is_staged (c : list PendingEntry) (k id : string) : bool :=
  existsb (fun e => String.eqb (device e) k && String.eqb (entry_identifier e) id) c.

(** The devices of [l] are objects of one heap: the identity of an object
    determines the object. *)
Definition coherent (l : list PubKey) : Prop :=
  forall a b, In a l -> In b l -> ref a = ref b -> a = b.

(** [k] is the key of one of [l]. *)
Definition has_key (l : list string) (k : string) : bool :=
  existsb (String.eqb k) l.

(** The symmetric difference of two collections of device keys, under
    equality of the keys. *)
Definition symmetricDifference (r o : list string) : list string :=
  List.filter (fun k => negb (has_key o k)) r
  ++ List.filter (fun k => negb (has_key r k)) o.

(** The device objects [getOurDevices] makes when called in the state [s],
    and the array the [forEach] of [sendMessageToDevices] then runs over. *)
Definition ownDevices (W : Collaborators) (s : State) : list PubKey :=
  snd (getOurDevices W s).

Definition primaryDevices (W : Collaborators) (s : State) (devices : list PubKey)
  : list PubKey :=
  xor devices (Some (ownDevices W s)).

(** The sync exclusion as C1 and the specification state it, on the pending store
    after [sendMessageToDevices]: the sync message is staged for exactly the
    own device keys, the message for exactly the symmetric difference of the
    recipient keys and the own device keys, and no key gets both. *)
Definition sync_exclusion_as_specified (W : Collaborators) (s : State)
    (devices : list PubKey) (m : Message) : Prop :=
  let c := pendingMessageCache (fst (sendMessageToDevices W s (JsArray devices) m)) in
  let own := getPairedDevicesFor W (getNumber W) in
  (forall k, is_staged c k (identifier (SyncMessage_from W m)) = has_key own k)
  /\ (forall k, is_staged c k (identifier m)
               = has_key (symmetricDifference (map key devices) own) k)
  /\ (forall k, is_staged c k (identifier m) = true ->
               is_staged c k (identifier (SyncMessage_from W m)) = false).

(** The veto of the wrapper as C5 and the specification state it: when the
    message says it can sync and its sync wrapper reports that it cannot,
    [sendMessageToDevices] stages the sync wrapper for no own device key,
    and stages the message for the recipient keys and no other. *)
Definition wrapper_veto_as_stated (W : Collaborators) (s : State)
    (devices : list PubKey) (m : Message) : Prop :=
  let c := pendingMessageCache (fst (sendMessageToDevices W s (JsArray devices) m)) in
  canSync W m (Some m) = true ->
  canSync W (SyncMessage_from W m) None = false ->
  (forall k, has_key (getPairedDevicesFor W (getNumber W)) k = true ->
             is_staged c k (identifier (SyncMessage_from W m))
             = is_staged (pendingMessageCache s) k (identifier (SyncMessage_from W m)))
  /\ (forall k, is_staged c k (identifier m)
                = is_staged (pendingMessageCache s) k (identifier m)
                  || (negb (instanceof m SessionResetMessageC)
                      && has_key (map key devices) k)).

(** Every queue of the map was allocated before the next free identity. *)
Definition queues_allocated (s : State) : Prop :=
  forall r q, jobQueues s !! r = Some q -> qref q < heap_next s.

(** *** Patterns and identifiers *)

(** The language of a pattern. *)
Inductive lang : regex -> string -> Prop :=
| lang_Empty : lang Empty EmptyString
| lang_Chr (c : ascii) : lang (Chr c) (String c EmptyString)
| lang_Range (lo hi c : ascii) :
    in_range lo hi c = true -> lang (Range lo hi) (String c EmptyString)
| lang_Cat (r1 r2 : regex) (s1 s2 : string) :
    lang r1 s1 -> lang r2 s2 -> lang (Cat r1 r2) (String.append s1 s2)
| lang_Alt_l (r1 r2 : regex) (s : string) : lang r1 s -> lang (Alt r1 r2) s
| lang_Alt_r (r1 r2 : regex) (s : string) : lang r2 s -> lang (Alt r1 r2) s
| lang_Star_nil (r : regex) : lang (Star r) EmptyString
| lang_Star_cons (r : regex) (s1 s2 : string) :
    lang r s1 -> lang (Star r) s2 -> lang (Star r) (String.append s1 s2).

(** The round trip as C10 states it: for a room identifier of 2 to 64
    characters of [[0-9a-z_]] and a server URL that [match]es the server
    pattern and holds no ['@'], building the conversation identifier does
    not throw and reading it back gives the two parts. *)
Definition roundtrip_as_stated (serverUrl roomId : string) : Prop :=
  (2 <= String.length roomId <= 64)%nat ->
  string_forallb is_roomIdChar roomId = true ->
  search openGroupV2ServerUrlRegex serverUrl = true ->
  string_forallb (fun c => negb (Ascii.eqb c "@")) serverUrl = true ->
  exists conversationId,
    getOpenGroupV2ConversationId serverUrl roomId = Ok conversationId
    /\ getOpenGroupV2FromConversationId conversationId
       = Ok {| serverUrl := serverUrl; roomId := roomId |}.

(** A letter or a digit: the characters of [[a-zA-Z0-9]]. *)
Definition is_alnum (c : ascii) : bool :=
  in_range "a" "z" c || in_range "A" "Z" c || in_range "0" "9" c.

(** Some character of [s] is a letter or a digit. *)
Fixpoint has_alnum (s : string) : bool :=
  match s with
  | EmptyString => false
  | String c s' => is_alnum c || has_alnum s'
  end.

(** The last character of [s] is a letter or a digit. *)
Fixpoint ends_with_alnum (s : string) : bool :=
  match s with
  | EmptyString => false
  | String c EmptyString => is_alnum c
  | String _ s' => ends_with_alnum s'
  end.

(** Two characters of [[0-9a-z_]] stand side by side somewhere in [s]. *)
Fixpoint has_two_roomIdChars (s : string) : bool :=
  match s with
  | EmptyString => false
  | String c1 s' =>
      match s' with
      | EmptyString => false
      | String c2 _ => (is_roomIdChar c1 && is_roomIdChar c2) || has_two_roomIdChars s'
      end
  end.

Definition is_publicKeyChar (c : ascii) : bool :=
  in_range "0" "9" c || in_range "a" "z" c.

(** Every word of the language of [r] that is not empty starts with a
    character of [P]. *)
Definition heads (P : ascii -> bool) (r : regex) : Prop :=
  forall s, lang r s ->
    s = EmptyString \/ exists c b, s = String c b /\ P c = true.

(** *** Runs of a queue *)

(** The device object was made before the next free identity. *)
Definition allocated (s : State) (d : PubKey) : Prop := ref d < heap_next s.

Definition devices_allocated (s : State) (devices : JsValue) : Prop :=
  match devices with
  | JsNumber _ => True
  | JsArray a => Forall (allocated s) a
  end.

(** [finds] tells under which identifiers the queue class finds a job that
    is queued; the collaborators [W] answer accordingly. *)
Definition finds_as (finds : string -> bool) (W : Collaborators) : Prop :=
  forall id, findsJob W id = finds id.

(** One step of a run: a device object made outside the queue, one call of
    a method of the queue on objects that exist, or one delivery job that
    settles.  The collaborators may answer differently from one call to the
    next, except for what the queue class finds. *)
Inductive step (finds : string -> bool) : State -> State -> Prop :=
| step_new_PubKey (s : State) :
    step finds s (set_heap_next s (S (heap_next s)))
| step_sendUsingMultiDevice (W : Collaborators) (s : State) (user : PubKey) (m : Message) :
    finds_as finds W -> allocated s user ->
    step finds s (fst (sendUsingMultiDevice W s user m))
| step_send (W : Collaborators) (s : State) (d : PubKey) (m : Message) :
    finds_as finds W -> allocated s d ->
    step finds s (fst (send W s d m))
| step_sendMessageToDevices (W : Collaborators) (s : State) (devices : JsValue)
    (m : Message) :
    finds_as finds W -> devices_allocated s devices ->
    step finds s (fst (sendMessageToDevices W s devices m))
| step_sendToGroup (W : Collaborators) (s : State) (m : Message) :
    finds_as finds W ->
    step finds s (fst (sendToGroup W s m))
| step_sendSyncMessage (W : Collaborators) (s : State) (m : Message) :
    finds_as finds W ->
    step finds s (fst (sendSyncMessage W s m))
| step_processPending (W : Collaborators) (s : State) (d : PubKey) :
    finds_as finds W -> allocated s d ->
    step finds s (processPending W s d)
| step_processAllPending (W : Collaborators) (s : State) (devices : list PubKey) :
    finds_as finds W -> Forall (allocated s) devices ->
    step finds s (processAllPending W s devices)
| step_settle (s : State) (r : nat) (o : Outcome) :
    step finds s (fst (settle s r o)).

(** The states a queue can be in: those of a new queue, and those a step
    leads to. *)
Inductive reachable (finds : string -> bool) : State -> Prop :=
| reachable_init (c : list PendingEntry) : reachable finds (init c)
| reachable_step (s s' : State) :
    reachable finds s -> step finds s s' -> reachable finds s'.

(** No queue holds two jobs for one identifier under which the queue class
    finds a job. *)
Definition queue_ids_distinct (finds : string -> bool) (s : State) : Prop :=
  forall r q, jobQueues s !! r = Some q ->
              NoDup (List.filter finds (map entry_identifier (jobs q))).

(** The session gate of [processPending] lets the device pass. *)
Definition gate_open (W : Collaborators) (d : PubKey) : bool :=
  isMediumGroup W (key d) || hasSession W d.

(** ** Part V: properties of [MessageQueue] *)

Ltac state_simpl :=
  cbn [heap_next jobQueues pendingMessageCache sessionRequests sent
       set_heap_next set_jobQueues set_pendingMessageCache
       set_sessionRequests set_sent fst snd].

Ltac state_simpl_in H :=
  cbn [heap_next jobQueues pendingMessageCache sessionRequests sent
       set_heap_next set_jobQueues set_pendingMessageCache
       set_sessionRequests set_sent fst snd] in H.

Section Queue.

Variable W : Collaborators.

(** *** The session gate *)

(** C3: for a device that is not a medium group and has no session,
    [processPending] adds no job to any queue (it creates no queue either),
    calls the session request exactly once, for that device, and leaves the
    pending store as it was. *)
Theorem processPending_session_gate (s : State) (d : PubKey) :
  isMediumGroup W (key d) = false ->
  hasSession W d = false ->
  jobQueues (processPending W s d) = jobQueues s
  /\ sessionRequests (processPending W s d) = sessionRequests s ++ [d]
  /\ pendingMessageCache (processPending W s d) = pendingMessageCache s
  /\ cache_getForDevice (pendingMessageCache (processPending W s d)) d
     = cache_getForDevice (pendingMessageCache s) d
  /\ sent (processPending W s d) = sent s.
Proof.
  intros Hgroup Hsession. unfold processPending.
  rewrite Hgroup, Hsession. cbn. repeat split; reflexivity.
Qed.

(** *** Session resets *)

(** C6: [queue] returns at once on a [SessionResetMessage]: the state is the
    one it was called in, so nothing is staged and no job is submitted. *)
Theorem queue_session_reset (s : State) (d : PubKey) (m : Message) :
  mclass m = SessionResetMessageC ->
  queue W s d m = s
  /\ pendingMessageCache (queue W s d m) = pendingMessageCache s
  /\ jobQueues (queue W s d m) = jobQueues s.
Proof.
  intros Hclass.
  assert (Hq : queue W s d m = s).
  { unfold queue, instanceof. rewrite Hclass. reflexivity. }
  rewrite Hq. auto.
Qed.

(** *** Groups *)

(** C8: on a [ClosedGroupMessage], [sendToGroup] passes the number 5 where
    [sendMessageToDevices] spreads an array: the call throws and the state is
    untouched, so no member of the group is sent anything. *)
Theorem sendToGroup_closed_group_throws (s : State) (m : Message) :
  mclass m = ClosedGroupMessageC ->
  sendToGroup W s m = (s, Threw).
Proof.
  intros Hclass. unfold sendToGroup, instanceof. rewrite Hclass. reflexivity.
Qed.

(** C9: on an [OpenGroupMessage], [sendToGroup] returns with the state
    untouched: nothing is staged or queued, and [MessageSender.send] is not
    called either. *)
Theorem sendToGroup_open_group_noop (s : State) (m : Message) :
  mclass m = OpenGroupMessageC ->
  sendToGroup W s m = (s, Returned)
  /\ sent (fst (sendToGroup W s m)) = sent s
  /\ pendingMessageCache (fst (sendToGroup W s m)) = pendingMessageCache s
  /\ jobQueues (fst (sendToGroup W s m)) = jobQueues s.
Proof.
  intros Hclass.
  assert (Hs : sendToGroup W s m = (s, Returned)).
  { unfold sendToGroup, instanceof. rewrite Hclass. reflexivity. }
  rewrite Hs. auto.
Qed.

(** *** Job queues *)

Lemma JobQueue_has_add (q : JobQueue) (j : PendingEntry) (id : string) :
  JobQueue_has (JobQueue_add q j) id
  = JobQueue_has q id || String.eqb (entry_identifier j) id.
Proof.
  unfold JobQueue_has, JobQueue_add. cbn.
  rewrite existsb_app. cbn. rewrite orb_false_r. reflexivity.
Qed.

Lemma submit_has_mono (q : JobQueue) (m : PendingEntry) (id : string) :
  JobQueue_has q id = true -> JobQueue_has (submit W q m) id = true.
Proof.
  intros Hq. unfold submit.
  destruct (negb (JobQueue_finds W q (entry_identifier m))); [|exact Hq].
  rewrite JobQueue_has_add, Hq. reflexivity.
Qed.

Lemma submit_has_self (q : JobQueue) (m : PendingEntry) :
  JobQueue_has (submit W q m) (entry_identifier m) = true.
Proof.
  destruct (JobQueue_has q (entry_identifier m)) eqn:Hq.
  - apply submit_has_mono, Hq.
  - unfold submit, JobQueue_finds. rewrite Hq, andb_false_r. cbn [negb].
    rewrite JobQueue_has_add, String.eqb_refl. apply orb_true_r.
Qed.

Lemma fold_submit_has_mono (ms : list PendingEntry) (q : JobQueue) (id : string) :
  JobQueue_has q id = true -> JobQueue_has (fold_left (submit W) ms q) id = true.
Proof.
  revert q. induction ms as [|m ms IH]; intros q Hq; cbn; [exact Hq|].
  apply IH, submit_has_mono, Hq.
Qed.

Lemma fold_submit_has (ms : list PendingEntry) (q : JobQueue) (e : PendingEntry) :
  In e ms -> JobQueue_has (fold_left (submit W) ms q) (entry_identifier e) = true.
Proof.
  revert q. induction ms as [|m ms IH]; intros q Hin; [destruct Hin|].
  cbn. destruct Hin as [->|Hin].
  - apply fold_submit_has_mono, submit_has_self.
  - apply IH, Hin.
Qed.

Lemma submit_qref (q : JobQueue) (m : PendingEntry) : qref (submit W q m) = qref q.
Proof. unfold submit. destruct (negb _); reflexivity. Qed.

Lemma fold_submit_qref (ms : list PendingEntry) (q : JobQueue) :
  qref (fold_left (submit W) ms q) = qref q.
Proof.
  revert q. induction ms as [|m ms IH]; intros q; cbn; [reflexivity|].
  rewrite IH. apply submit_qref.
Qed.

(** Over a queue that holds a job for each of the messages, a pass submits
    again the messages whose job the queue does not find, and no other. *)
Lemma fold_submit_again (ms : list PendingEntry) (q : JobQueue) :
  (forall e, In e ms -> JobQueue_has q (entry_identifier e) = true) ->
  fold_left (submit W) ms q
  = {| qref := qref q;
       jobs := jobs q
               ++ List.filter (fun m => negb (findsJob W (entry_identifier m))) ms |}.
Proof.
  revert q. induction ms as [|m ms IH]; intros q Hall; cbn [fold_left List.filter].
  - rewrite app_nil_r. destruct q. reflexivity.
  - assert (Hm : JobQueue_has q (entry_identifier m) = true)
      by (apply Hall; left; reflexivity).
    unfold submit at 2. unfold JobQueue_finds. rewrite Hm, andb_true_r.
    destruct (findsJob W (entry_identifier m)); cbn [negb].
    + apply IH. intros e He. apply Hall. right. exact He.
    + rewrite IH.
      * unfold JobQueue_add. cbn [qref jobs]. rewrite <- app_assoc. reflexivity.
      * intros e He. rewrite JobQueue_has_add, (Hall e (or_intror He)). reflexivity.
Qed.

Lemma cache_getForDevice_In (c : list PendingEntry) (d : PubKey) (e : PendingEntry) :
  In e (cache_getForDevice c d) <-> In e c /\ device e = key d.
Proof.
  unfold cache_getForDevice. rewrite filter_In, String.eqb_eq. reflexivity.
Qed.

(** C7: two device objects with the same key material do not share a queue.
    When the map holds no queue for the object [d2], [getJobQueue] makes a
    new one for it, whatever queue the object [d1] of the same key has: the
    two lookups return different queue objects, stored under two keys of the
    map. *)
Theorem getJobQueue_equal_keys_distinct_queues (s : State) (d1 d2 : PubKey) :
  key d1 = key d2 ->
  ref d1 <> ref d2 ->
  queues_allocated s ->
  jobQueues s !! ref d2 = None ->
  qref (snd (getJobQueue s d1))
  <> qref (snd (getJobQueue (fst (getJobQueue s d1)) d2))
  /\ jobQueues (fst (getJobQueue (fst (getJobQueue s d1)) d2)) !! ref d1
     = Some (snd (getJobQueue s d1))
  /\ jobQueues (fst (getJobQueue (fst (getJobQueue s d1)) d2)) !! ref d2
     = Some (snd (getJobQueue (fst (getJobQueue s d1)) d2)).
Proof.
  intros _ Hne Halloc Hnone.
  destruct (getJobQueue s d1) as [s1 q1] eqn:H1. cbn [fst snd].
  unfold getJobQueue in H1.
  destruct (jobQueues s !! ref d1) as [q|] eqn:Hq1;
    inversion H1; subst s1 q1; clear H1; unfold getJobQueue; cbn.
  - rewrite Hnone. cbn.
    rewrite lookup_insert_ne, lookup_insert_eq by congruence.
    split; [|split; [exact Hq1|reflexivity]].
    specialize (Halloc _ _ Hq1). lia.
  - rewrite lookup_insert_ne, Hnone by congruence. cbn.
    rewrite lookup_insert_ne, !lookup_insert_eq by congruence.
    split; [lia|split; reflexivity].
Qed.

Lemma getJobQueue_new (s : State) (d : PubKey) :
  jobQueues s !! ref d = None ->
  getJobQueue s d
  = (set_jobQueues (set_heap_next s (S (heap_next s)))
       (<[ref d := {| qref := heap_next s; jobs := [] |}]> (jobQueues s)),
     {| qref := heap_next s; jobs := [] |}).
Proof. intros Hnone. unfold getJobQueue. rewrite Hnone. reflexivity. Qed.

Lemma processPending_with_session (s : State) (d : PubKey) :
  hasSession W d = true ->
  processPending W s d
  = set_jobQueues (fst (getJobQueue s d))
      (<[ref d := fold_left (submit W) (cache_getForDevice (pendingMessageCache s) d)
                    (snd (getJobQueue s d))]>
         (jobQueues (fst (getJobQueue s d)))).
Proof.
  intros Hs. unfold processPending. rewrite Hs, andb_false_r.
  destruct (getJobQueue s d). reflexivity.
Qed.

(** C2: the guard of [processPending] looks into the queue of the device
    object it was given.  With two device objects [d1] and [d2] of one key,
    neither of which has a queue yet, a pass for [d1] and then a pass for
    [d2] leave two different queues, and a delivery job for the identifier
    of every message staged for that key is outstanding in both of them. *)
Theorem processPending_equal_keys_duplicate_jobs
    (s : State) (d1 d2 : PubKey) (e : PendingEntry) :
  key d1 = key d2 ->
  ref d1 <> ref d2 ->
  hasSession W d1 = true ->
  hasSession W d2 = true ->
  jobQueues s !! ref d1 = None ->
  jobQueues s !! ref d2 = None ->
  In e (pendingMessageCache s) ->
  device e = key d1 ->
  exists q1 q2,
    jobQueues (processPending W (processPending W s d1) d2) !! ref d1 = Some q1
    /\ jobQueues (processPending W (processPending W s d1) d2) !! ref d2 = Some q2
    /\ qref q1 <> qref q2
    /\ JobQueue_has q1 (entry_identifier e) = true
    /\ JobQueue_has q2 (entry_identifier e) = true.
Proof.
  intros Hkey Hne Hs1 Hs2 Hn1 Hn2 Hin Hdev.
  assert (He1 : In e (cache_getForDevice (pendingMessageCache s) d1)).
  { apply cache_getForDevice_In. auto. }
  assert (He2 : In e (cache_getForDevice (pendingMessageCache s) d2)).
  { apply cache_getForDevice_In. split; [exact Hin|congruence]. }
  rewrite (processPending_with_session s d1 Hs1), (getJobQueue_new s d1 Hn1).
  state_simpl. rewrite insert_insert_eq.
  rewrite processPending_with_session by exact Hs2.
  rewrite getJobQueue_new
    by (state_simpl; rewrite lookup_insert_ne by congruence; exact Hn2).
  state_simpl. rewrite insert_insert_eq.
  eexists _, _.
  rewrite lookup_insert_ne, !lookup_insert_eq by congruence.
  split; [reflexivity|]. split; [reflexivity|].
  rewrite !fold_submit_qref. cbn [qref].
  split; [lia|]. split; apply fold_submit_has; assumption.
Qed.

(** *** Delivery *)

Lemma is_staged_cache_remove (c : list PendingEntry) (j : PendingEntry) :
  is_staged (cache_remove c j) (device j) (entry_identifier j) = false.
Proof.
  unfold is_staged, cache_remove, same_entry.
  induction c as [|e c IH]; cbn; [reflexivity|].
  destruct (String.eqb (device j) (device e)) eqn:Hd;
    destruct (String.eqb (entry_identifier j) (entry_identifier e)) eqn:Hi; cbn;
    try exact IH; rewrite IH, (String.eqb_sym (device e)),
      (String.eqb_sym (entry_identifier e)), Hd, Hi; reflexivity.
Qed.

(** The jobs [processPending] leaves in the queue of [d] were in the queue
    before or are entries staged for [d]. *)
Lemma fold_submit_jobs (ms : list PendingEntry) (q : JobQueue) (j : PendingEntry) :
  In j (jobs (fold_left (submit W) ms q)) -> In j (jobs q) \/ In j ms.
Proof.
  revert q. induction ms as [|m ms IH]; intros q Hin; cbn in *; [auto|].
  apply IH in Hin. destruct Hin as [Hin|Hin]; [|auto].
  unfold submit in Hin. destruct (negb _); [|auto].
  cbn in Hin. apply in_app_or in Hin. cbn in Hin. tauto.
Qed.

(** C4: when the oldest job [j] of a queue settles, [MessageSender.send] has
    been called on its entry.  If the delivery fulfils, the entry is removed
    from the pending store: no entry for that device and identifier is left.
    If it rejects, the store is as before, and in both cases the promise of
    the [then]/[catch] chain fulfils, so nothing is thrown to the caller. *)
Theorem settle_removes_or_keeps
    (s : State) (d : nat) (q : JobQueue) (j : PendingEntry) (rest : list PendingEntry) :
  jobQueues s !! d = Some q ->
  jobs q = j :: rest ->
  (snd (settle s d Fulfilled) = Fulfilled
   /\ pendingMessageCache (fst (settle s d Fulfilled))
      = cache_remove (pendingMessageCache s) j
   /\ is_staged (pendingMessageCache (fst (settle s d Fulfilled)))
        (device j) (entry_identifier j) = false)
  /\ (snd (settle s d Rejected) = Fulfilled
      /\ pendingMessageCache (fst (settle s d Rejected)) = pendingMessageCache s)
  /\ (forall o, sent (fst (settle s d o)) = sent s ++ [j]).
Proof.
  intros Hq Hjobs. unfold settle. rewrite Hq, Hjobs. cbn.
  repeat split.
  - apply is_staged_cache_remove.
  - intros []; reflexivity.
Qed.

(** *** Staging *)

Lemma processPending_cache (s : State) (d : PubKey) :
  pendingMessageCache (processPending W s d) = pendingMessageCache s.
Proof.
  unfold processPending.
  destruct (negb (isMediumGroup W (key d)) && negb (hasSession W d)); [reflexivity|].
  destruct (getJobQueue s d) as [s1 q] eqn:Hq. state_simpl.
  unfold getJobQueue in Hq.
  destruct (jobQueues s !! ref d); inversion Hq; reflexivity.
Qed.

Lemma queue_cache (s : State) (d : PubKey) (m : Message) :
  pendingMessageCache (queue W s d m)
  = if instanceof m SessionResetMessageC then pendingMessageCache s
    else cache_add (pendingMessageCache s) d m.
Proof.
  unfold queue. destruct (instanceof m SessionResetMessageC); [reflexivity|].
  rewrite processPending_cache. reflexivity.
Qed.

Lemma fold_queue_cache (ds : list PubKey) (s : State) (m : Message) :
  pendingMessageCache (fold_left (fun s d => queue W s d m) ds s)
  = if instanceof m SessionResetMessageC then pendingMessageCache s
    else fold_left (fun c d => cache_add c d m) ds (pendingMessageCache s).
Proof.
  revert s. induction ds as [|d ds IH]; intros s; cbn [fold_left].
  - destruct (instanceof m SessionResetMessageC); reflexivity.
  - rewrite IH, queue_cache.
    destruct (instanceof m SessionResetMessageC); reflexivity.
Qed.

Lemma is_staged_app (c1 c2 : list PendingEntry) (k id : string) :
  is_staged (c1 ++ c2) k id = is_staged c1 k id || is_staged c2 k id.
Proof. unfold is_staged. apply existsb_app. Qed.

Lemma existsb_same_entry (c : list PendingEntry) (e : PendingEntry) :
  existsb (same_entry e) c = is_staged c (device e) (entry_identifier e).
Proof.
  unfold is_staged, same_entry. induction c as [|a c IH]; cbn; [reflexivity|].
  rewrite IH, (String.eqb_sym (device e)),
    (String.eqb_sym (entry_identifier e)). reflexivity.
Qed.

Lemma is_staged_cache_add (c : list PendingEntry) (d : PubKey) (m : Message)
    (k id : string) :
  is_staged (cache_add c d m) k id
  = is_staged c k id || (String.eqb (key d) k && String.eqb (identifier m) id).
Proof.
  unfold cache_add. rewrite existsb_same_entry.
  unfold entry_identifier at 1. cbn [device message].
  destruct (is_staged c (key d) (identifier m)) eqn:Hst.
  - destruct (String.eqb (key d) k) eqn:Hk; [|rewrite orb_false_r; reflexivity].
    destruct (String.eqb (identifier m) id) eqn:Hi; [|rewrite orb_false_r; reflexivity].
    apply String.eqb_eq in Hk, Hi. subst. rewrite Hst. reflexivity.
  - rewrite is_staged_app. unfold is_staged at 2. cbn.
    rewrite orb_false_r. reflexivity.
Qed.

Lemma is_staged_fold_cache_add (ds : list PubKey) (c : list PendingEntry)
    (m : Message) (k id : string) :
  is_staged (fold_left (fun c d => cache_add c d m) ds c) k id
  = is_staged c k id
    || (has_key (map key ds) k && String.eqb (identifier m) id).
Proof.
  revert c. induction ds as [|d ds IH]; intros c; cbn [fold_left map].
  - cbn. rewrite orb_false_r. reflexivity.
  - rewrite IH, is_staged_cache_add. unfold has_key. cbn [existsb].
    rewrite (String.eqb_sym k).
    destruct (is_staged c k id), (String.eqb (key d) k),
      (String.eqb (identifier m) id), (existsb (String.eqb k) (map key ds));
      reflexivity.
Qed.

(** What [queue]ing [m] to each of [ds] stages. *)
Lemma is_staged_fold_queue (ds : list PubKey) (s : State) (m : Message)
    (k id : string) :
  is_staged (pendingMessageCache (fold_left (fun s d => queue W s d m) ds s)) k id
  = is_staged (pendingMessageCache s) k id
    || (negb (instanceof m SessionResetMessageC)
        && has_key (map key ds) k && String.eqb (identifier m) id).
Proof.
  rewrite fold_queue_cache. destruct (instanceof m SessionResetMessageC); cbn.
  - rewrite orb_false_r. reflexivity.
  - apply is_staged_fold_cache_add.
Qed.

(** The entries of the pending store after [queue]ing [m] to each of [ds]. *)
Lemma In_cache_add_mono (c : list PendingEntry) (d : PubKey) (m : Message)
    (e : PendingEntry) :
  In e c -> In e (cache_add c d m).
Proof.
  intros He. unfold cache_add.
  destruct (existsb _ c); [exact He|]. apply in_or_app. left. exact He.
Qed.

Lemma In_fold_cache_add_mono (ds : list PubKey) (c : list PendingEntry)
    (m : Message) (e : PendingEntry) :
  In e c -> In e (fold_left (fun c d => cache_add c d m) ds c).
Proof.
  revert c. induction ds as [|d ds IH]; intros c He; cbn [fold_left]; [exact He|].
  apply IH, In_cache_add_mono, He.
Qed.

Lemma In_fold_cache_add_inv (ds : list PubKey) (c : list PendingEntry)
    (m : Message) (e : PendingEntry) :
  In e (fold_left (fun c d => cache_add c d m) ds c) ->
  In e c \/ (has_key (map key ds) (device e) = true /\ message e = m).
Proof.
  revert c. induction ds as [|d ds IH]; intros c He; cbn [fold_left] in He.
  - left. exact He.
  - destruct (IH _ He) as [Hc|[Hk Hm]].
    + unfold cache_add in Hc.
      destruct (existsb _ c); [left; exact Hc|].
      apply in_app_or in Hc. destruct Hc as [Hc|[<-|[]]]; [left; exact Hc|].
      right. cbn [device message map]. split; [|reflexivity].
      unfold has_key. cbn [existsb]. rewrite String.eqb_refl. reflexivity.
    + right. split; [|exact Hm].
      cbn [map]. unfold has_key in *. cbn [existsb]. rewrite Hk. apply orb_true_r.
Qed.

Lemma In_fold_cache_add_intro (ds : list PubKey) (c : list PendingEntry)
    (m : Message) (k : string) :
  has_key (map key ds) k = true ->
  is_staged c k (identifier m) = false ->
  In {| device := k; message := m |} (fold_left (fun c d => cache_add c d m) ds c).
Proof.
  revert c. induction ds as [|d ds IH]; intros c Hk Hst; [discriminate Hk|].
  cbn [fold_left]. cbn [map] in Hk. unfold has_key in Hk. cbn [existsb] in Hk.
  destruct (String.eqb k (key d)) eqn:Hkd.
  - apply String.eqb_eq in Hkd. subst k.
    apply In_fold_cache_add_mono. unfold cache_add.
    rewrite existsb_same_entry. cbn [device]. unfold entry_identifier at 1.
    cbn [message]. rewrite Hst. apply in_or_app. right. left. reflexivity.
  - apply IH; [exact Hk|].
    rewrite is_staged_cache_add, Hst, (String.eqb_sym (key d)), Hkd. reflexivity.
Qed.

(** *** Device objects *)

Lemma map_new_PubKey_spec (ks : list string) (s : State) :
  map key (snd (map_new_PubKey s ks)) = ks
  /\ map ref (snd (map_new_PubKey s ks)) = seq (heap_next s) (length ks)
  /\ fst (map_new_PubKey s ks) = set_heap_next s (heap_next s + length ks).
Proof.
  revert s. induction ks as [|k ks IH]; intros s; cbn [map_new_PubKey].
  - cbn. rewrite Nat.add_0_r. destruct s; auto.
  - unfold new_PubKey.
    destruct (map_new_PubKey (set_heap_next s (S (heap_next s))) ks)
      as [s2 ds] eqn:Hrec.
    specialize (IH (set_heap_next s (S (heap_next s)))).
    rewrite Hrec in IH. cbn [fst snd] in *. destruct IH as (Hk & Hr & Hs).
    cbn [map key ref length seq heap_next set_heap_next] in *.
    rewrite Hk, Hr, Hs. repeat split.
    unfold set_heap_next. cbn. f_equal. lia.
Qed.

Lemma arrayIncludes_true (l : list PubKey) (x : PubKey) :
  arrayIncludes l x = true <-> exists y, In y l /\ ref y = ref x.
Proof.
  unfold arrayIncludes, sameValueZero. rewrite existsb_exists.
  split; intros (y & Hy & Heq); exists y; split; auto.
  - apply Nat.eqb_eq in Heq. auto.
  - apply Nat.eqb_eq. auto.
Qed.

Lemma arrayIncludes_false (l : list PubKey) (x : PubKey) :
  arrayIncludes l x = false <-> forall y, In y l -> ref y <> ref x.
Proof.
  rewrite <- not_true_iff_false, arrayIncludes_true. split.
  - intros Hno y Hy Heq. apply Hno. eauto.
  - intros Hall (y & Hy & Heq). exact (Hall y Hy Heq).
Qed.

Lemma baseUniq_from_In (l seen : list PubKey) (x : PubKey) :
  In x (baseUniq_from seen l) -> In x l.
Proof.
  revert seen. induction l as [|a l IH]; intros seen; cbn; [auto|].
  destruct (arrayIncludes seen a); cbn; intros H.
  - right. exact (IH _ H).
  - destruct H as [H|H]; [auto|right; exact (IH _ H)].
Qed.

Lemma In_baseUniq_from (l seen : list PubKey) (x : PubKey) :
  coherent l -> In x l -> arrayIncludes seen x = false ->
  In x (baseUniq_from seen l).
Proof.
  revert seen. induction l as [|a l IH]; intros seen Hco Hin Hseen; [destruct Hin|].
  assert (Hco' : coherent l).
  { intros u v Hu Hv. apply Hco; right; assumption. }
  cbn. destruct (arrayIncludes seen a) eqn:Ha.
  - destruct Hin as [->|Hin]; [congruence|]. apply IH; assumption.
  - destruct Hin as [->|Hin]; [left; reflexivity|].
    destruct (Nat.eq_dec (ref a) (ref x)) as [Heq|Hne].
    + left. apply Hco; [left; reflexivity|right; exact Hin|exact Heq].
    + right. apply IH; [assumption..|].
      apply arrayIncludes_false. intros y [<-|Hy]; [exact Hne|].
      apply arrayIncludes_false with (y := y) in Hseen; assumption.
Qed.

(** Deduplication keeps the members of a list of objects. *)
Lemma baseUniq_In (l : list PubKey) (x : PubKey) :
  coherent l -> (In x (baseUniq l) <-> In x l).
Proof.
  intros Hco. split; [apply baseUniq_from_In|].
  intros Hin. apply In_baseUniq_from; [assumption..|reflexivity].
Qed.

Lemma has_key_In (l : list string) (k : string) :
  has_key l k = true <-> In k l.
Proof.
  unfold has_key. rewrite existsb_exists. split.
  - intros (x & Hx & Heq). apply String.eqb_eq in Heq. subst. exact Hx.
  - intros Hin. exists k. split; [exact Hin|apply String.eqb_refl].
Qed.

Lemma has_key_ext (l1 l2 : list string) :
  (forall k, In k l1 <-> In k l2) -> forall k, has_key l1 k = has_key l2 k.
Proof.
  intros Hext k. apply eq_true_iff_eq. rewrite !has_key_In. apply Hext.
Qed.

Lemma In_ownDevices_ref (s : State) (d : PubKey) :
  In d (ownDevices W s) -> heap_next s <= ref d.
Proof.
  unfold ownDevices, getOurDevices. intros Hin.
  destruct (map_new_PubKey_spec (getPairedDevicesFor W (getNumber W)) s)
    as (_ & Href & _).
  apply (in_map ref) in Hin. rewrite Href in Hin. apply in_seq in Hin. lia.
Qed.

Lemma coherent_ownDevices (s : State) : coherent (ownDevices W s).
Proof.
  unfold ownDevices, getOurDevices.
  destruct (map_new_PubKey_spec (getPairedDevicesFor W (getNumber W)) s)
    as (_ & Href & _).
  revert Href. generalize (heap_next s).
  generalize (snd (map_new_PubKey s (getPairedDevicesFor W (getNumber W)))).
  generalize (length (getPairedDevicesFor W (getNumber W))).
  intros n l. revert n. induction l as [|x l IH]; intros n h Href a b Ha Hb Heq.
  - destruct Ha.
  - destruct n as [|n]; [discriminate|]. cbn in Href.
    injection Href as Hx Hl.
    assert (Hlt : forall y, In y l -> S h <= ref y).
    { intros y Hy. apply (in_map ref) in Hy. rewrite Hl in Hy.
      apply in_seq in Hy. lia. }
    destruct Ha as [<-|Ha], Hb as [<-|Hb].
    + reflexivity.
    + specialize (Hlt _ Hb). lia.
    + specialize (Hlt _ Ha). lia.
    + exact (IH _ _ Hl a b Ha Hb Heq).
Qed.

Lemma baseDifference_disjoint (a b : list PubKey) :
  (forall x y, In x a -> In y b -> ref y <> ref x) -> baseDifference a b = a.
Proof.
  unfold baseDifference. induction a as [|x a IH]; intros Hdis; cbn; [reflexivity|].
  assert (Hx : arrayIncludes b x = false).
  { apply arrayIncludes_false. intros y Hy. apply Hdis; [left; reflexivity|exact Hy]. }
  rewrite Hx. cbn. f_equal. apply IH. intros u v Hu Hv. apply Hdis; [right|]; assumption.
Qed.

(** The own device objects are new, so [_.xor] finds none of them among the
    recipients: the array it returns holds the recipients and the own
    devices. *)
Lemma In_primaryDevices (s : State) (devices : list PubKey) (x : PubKey) :
  coherent devices ->
  (forall d, In d devices -> ref d < heap_next s) ->
  In x (primaryDevices W s devices) <-> In x devices \/ In x (ownDevices W s).
Proof.
  intros Hco Hold. unfold primaryDevices, xor.
  assert (Hfresh : forall a b, In a devices -> In b (ownDevices W s) -> ref b <> ref a).
  { intros a b Ha Hb. apply Hold in Ha. apply In_ownDevices_ref in Hb. lia. }
  rewrite !baseDifference_disjoint.
  - rewrite baseUniq_In; [apply in_app_iff|].
    intros a b Ha Hb Heq. apply in_app_iff in Ha, Hb.
    destruct Ha as [Ha|Ha], Hb as [Hb|Hb].
    + apply Hco; assumption.
    + exfalso. exact (Hfresh _ _ Ha Hb (eq_sym Heq)).
    + exfalso. exact (Hfresh _ _ Hb Ha Heq).
    + apply (coherent_ownDevices s); assumption.
  - intros a b Ha Hb Heq. exact (Hfresh _ _ Hb Ha (eq_sym Heq)).
  - exact Hfresh.
Qed.

Lemma has_key_app (l1 l2 : list string) (k : string) :
  has_key (l1 ++ l2) k = has_key l1 k || has_key l2 k.
Proof. unfold has_key. apply existsb_app. Qed.

Lemma map_key_ownDevices (s : State) :
  map key (ownDevices W s) = getPairedDevicesFor W (getNumber W).
Proof.
  unfold ownDevices, getOurDevices. apply map_new_PubKey_spec.
Qed.

Lemma primaryDevices_keys (s : State) (devices : list PubKey) (k : string) :
  coherent devices ->
  (forall d, In d devices -> ref d < heap_next s) ->
  has_key (map key (primaryDevices W s devices)) k
  = has_key (map key devices) k
    || has_key (getPairedDevicesFor W (getNumber W)) k.
Proof.
  intros Hco Hold. rewrite <- (map_key_ownDevices s), <- has_key_app, <- map_app.
  apply has_key_ext. intros k'. rewrite !in_map_iff.
  split; intros (x & Hx & Hin); exists x; (split; [exact Hx|]).
  - apply in_app_iff, In_primaryDevices; assumption.
  - apply In_primaryDevices; [assumption..|]. apply in_app_iff. exact Hin.
Qed.

Lemma has_key_symmetricDifference (r o : list string) (k : string) :
  has_key (symmetricDifference r o) k
  = (has_key r k && negb (has_key o k)) || (has_key o k && negb (has_key r k)).
Proof.
  unfold symmetricDifference. rewrite has_key_app.
  assert (Hf : forall l1 l2, has_key (List.filter (fun k => negb (has_key l2 k)) l1) k
                              = has_key l1 k && negb (has_key l2 k)).
  { intros l1 l2. apply eq_true_iff_eq.
    rewrite andb_true_iff, !has_key_In, filter_In. reflexivity. }
  rewrite !Hf. reflexivity.
Qed.

Lemma sendSyncMessage_syncs (s : State) (m : Message) :
  canSync W (SyncMessage_from W m) None = true ->
  sendSyncMessage W s m
  = (fold_left (fun s d => queue W s d m) (ownDevices W s) (fst (getOurDevices W s)),
     Some (ownDevices W s)).
Proof.
  intros Hw. unfold sendSyncMessage, ownDevices. rewrite Hw. cbn [negb].
  destruct (getOurDevices W s). reflexivity.
Qed.

Lemma instanceof_false (m : Message) (c : MessageClass) :
  mclass m <> c -> instanceof m c = false.
Proof. unfold instanceof. destruct (mclass m), c; congruence. Qed.

(** The sync branch: what [sendMessageToDevices] does when the message says
    it can sync and the wrapper that [sendSyncMessage] builds says so too. *)
Lemma sendMessageToDevices_syncs (s : State) (devices : list PubKey) (m : Message) :
  canSync W m (Some m) = true ->
  canSync W (SyncMessage_from W (SyncMessage_from W m)) None = true ->
  sendMessageToDevices W s (JsArray devices) m
  = (fold_left (fun s d => queue W s d m) (primaryDevices W s devices)
       (fold_left (fun s d => queue W s d (SyncMessage_from W m))
          (ownDevices W s) (fst (getOurDevices W s))),
     Returned).
Proof.
  intros Hsync Hwrap. unfold sendMessageToDevices. rewrite Hsync.
  rewrite (sendSyncMessage_syncs s _ Hwrap). reflexivity.
Qed.

Lemma sendMessageToDevices_syncs_cache (s : State) (devices : list PubKey)
    (m : Message) :
  canSync W m (Some m) = true ->
  canSync W (SyncMessage_from W (SyncMessage_from W m)) None = true ->
  mclass m <> SessionResetMessageC ->
  mclass (SyncMessage_from W m) <> SessionResetMessageC ->
  pendingMessageCache (fst (sendMessageToDevices W s (JsArray devices) m))
  = fold_left (fun c d => cache_add c d m) (primaryDevices W s devices)
      (fold_left (fun c d => cache_add c d (SyncMessage_from W m))
         (ownDevices W s) (pendingMessageCache s)).
Proof.
  intros Hsync Hwrap Hm Hsm.
  rewrite (sendMessageToDevices_syncs s devices m Hsync Hwrap). cbn [fst].
  rewrite !fold_queue_cache.
  rewrite (instanceof_false _ _ Hm), (instanceof_false _ _ Hsm).
  unfold getOurDevices.
  destruct (map_new_PubKey_spec (getPairedDevicesFor W (getNumber W)) s)
    as (_ & _ & ->).
  reflexivity.
Qed.

(** C1 (as amended): take a message that says it can sync and whose sync
    message reports that it can sync, such that the wrapper [sendSyncMessage]
    builds around that sync message (the wrapper of the wrapper) reports so
    too, neither the message nor its sync message being a session reset,
    the sync message having an identifier of its own, and recipients that
    are existing device objects.  Then
    [sendMessageToDevices] stages the sync message for exactly the own
    device keys and the message for exactly the keys of the devices of
    [_.xor(devices, ourDevices)]: by identifier, and entry by entry, for
    every key that had nothing staged under that identifier, with no other
    new entry.  By key, that array holds every device that is in exactly
    one of the recipients and the own devices, and nothing but recipients
    and own devices. *)
Theorem sendMessageToDevices_sync_split
    (s : State) (devices : list PubKey) (m : Message) :
  canSync W m (Some m) = true ->
  canSync W (SyncMessage_from W m) None = true ->
  canSync W (SyncMessage_from W (SyncMessage_from W m)) None = true ->
  mclass m <> SessionResetMessageC ->
  mclass (SyncMessage_from W m) <> SessionResetMessageC ->
  identifier (SyncMessage_from W m) <> identifier m ->
  coherent devices ->
  (forall d, In d devices -> ref d < heap_next s) ->
  snd (sendMessageToDevices W s (JsArray devices) m) = Returned
  /\ map key (ownDevices W s) = getPairedDevicesFor W (getNumber W)
  /\ (forall k id,
        is_staged
          (pendingMessageCache (fst (sendMessageToDevices W s (JsArray devices) m)))
          k id
        = is_staged (pendingMessageCache s) k id
          || (has_key (getPairedDevicesFor W (getNumber W)) k
              && String.eqb (identifier (SyncMessage_from W m)) id)
          || (has_key (map key (primaryDevices W s devices)) k
              && String.eqb (identifier m) id))
  /\ (forall k,
        has_key (getPairedDevicesFor W (getNumber W)) k = true ->
        is_staged (pendingMessageCache s) k (identifier (SyncMessage_from W m))
        = false ->
        In {| device := k; message := SyncMessage_from W m |}
          (pendingMessageCache (fst (sendMessageToDevices W s (JsArray devices) m))))
  /\ (forall k,
        has_key (map key (primaryDevices W s devices)) k = true ->
        is_staged (pendingMessageCache s) k (identifier m) = false ->
        In {| device := k; message := m |}
          (pendingMessageCache (fst (sendMessageToDevices W s (JsArray devices) m))))
  /\ (forall e,
        In e (pendingMessageCache (fst (sendMessageToDevices W s (JsArray devices) m))) ->
        In e (pendingMessageCache s)
        \/ (has_key (getPairedDevicesFor W (getNumber W)) (device e) = true
            /\ message e = SyncMessage_from W m)
        \/ (has_key (map key (primaryDevices W s devices)) (device e) = true
            /\ message e = m))
  /\ (forall k,
        has_key (symmetricDifference (map key devices)
                   (getPairedDevicesFor W (getNumber W))) k = true ->
        has_key (map key (primaryDevices W s devices)) k = true)
  /\ (forall k,
        has_key (map key (primaryDevices W s devices)) k = true ->
        has_key (map key devices) k = true
        \/ has_key (getPairedDevicesFor W (getNumber W)) k = true).
Proof.
  intros Hsync _ Hwrap Hm Hsm Hid Hco Hold.
  pose proof (sendMessageToDevices_syncs s devices m Hsync Hwrap) as Hsend.
  pose proof (sendMessageToDevices_syncs_cache s devices m Hsync Hwrap Hm Hsm)
    as Hcache.
  split; [rewrite Hsend; reflexivity|]. split; [apply map_key_ownDevices|].
  split; [|split; [|split; [|split; [|split]]]].
  - intros k id. rewrite Hcache, !is_staged_fold_cache_add, map_key_ownDevices.
    reflexivity.
  - intros k Hk Hst. rewrite Hcache.
    apply In_fold_cache_add_mono, In_fold_cache_add_intro; [|exact Hst].
    rewrite map_key_ownDevices. exact Hk.
  - intros k Hk Hst. rewrite Hcache.
    apply In_fold_cache_add_intro; [exact Hk|].
    rewrite is_staged_fold_cache_add, Hst.
    apply String.eqb_neq in Hid. rewrite Hid, andb_false_r. reflexivity.
  - intros e He. rewrite Hcache in He.
    apply In_fold_cache_add_inv in He. destruct He as [He|He]; [|right; right; exact He].
    apply In_fold_cache_add_inv in He. destruct He as [He|He]; [left; exact He|].
    right. left. rewrite <- (map_key_ownDevices s). exact He.
  - intros k. rewrite primaryDevices_keys, has_key_symmetricDifference by assumption.
    destruct (has_key (map key devices) k),
      (has_key (getPairedDevicesFor W (getNumber W)) k); cbn; auto.
  - intros k. rewrite primaryDevices_keys by assumption. apply orb_true_iff.
Qed.

(** The early return of [sendSyncMessage].  [sendMessageToDevices] hands
    [sendSyncMessage] the sync wrapper of the message, and [sendSyncMessage]
    wraps what it is given once more and asks that wrapper, the wrapper of
    the wrapper.  When the message says it can sync and the wrapper of the
    wrapper says it cannot, [sendSyncMessage] returns [undefined] and leaves
    the state as it was:
    no own device object is made and nothing is queued for one.  [_.xor(currentDevices, undefined)] is the
    deduplicated recipient array, which has the members of the recipient
    array, and the message is queued to each of them: it is staged for the
    recipient keys and no other. *)
Theorem sendMessageToDevices_wrapper_cannot_sync
    (s : State) (devices : list PubKey) (m : Message) :
  canSync W m (Some m) = true ->
  canSync W (SyncMessage_from W (SyncMessage_from W m)) None = false ->
  coherent devices ->
  sendSyncMessage W s (SyncMessage_from W m) = (s, None)
  /\ sendMessageToDevices W s (JsArray devices) m
     = (fold_left (fun s d => queue W s d m) (baseUniq devices) s, Returned)
  /\ (forall d, In d (baseUniq devices) <-> In d devices)
  /\ (forall k id,
        is_staged
          (pendingMessageCache (fst (sendMessageToDevices W s (JsArray devices) m)))
          k id
        = is_staged (pendingMessageCache s) k id
          || (negb (instanceof m SessionResetMessageC)
              && has_key (map key devices) k && String.eqb (identifier m) id)).
Proof.
  intros Hsync Hwrap Hco.
  assert (Hss : sendSyncMessage W s (SyncMessage_from W m) = (s, None)).
  { unfold sendSyncMessage. rewrite Hwrap. reflexivity. }
  assert (Hsend : sendMessageToDevices W s (JsArray devices) m
    = (fold_left (fun s d => queue W s d m) (baseUniq devices) s, Returned)).
  { unfold sendMessageToDevices. rewrite Hsync, Hss. reflexivity. }
  split; [exact Hss|]. split; [exact Hsend|].
  split; [intros d; apply baseUniq_In, Hco|].
  intros k id. rewrite Hsend. cbn [fst]. rewrite is_staged_fold_queue.
  f_equal. f_equal. f_equal. apply has_key_ext. intros k'.
  rewrite !in_map_iff. split; intros (x & Hx & Hin); exists x;
    (split; [exact Hx|]); apply (baseUniq_In _ _ Hco); exact Hin.
Qed.

(** C5: the veto is taken from the wrong wrapper.  [sendMessageToDevices]
    builds the sync wrapper of the message and hands it to
    [sendSyncMessage], which applies [SyncMessage.from] once more and asks
    the wrapper of the wrapper whether it can sync.  Whatever the sync
    wrapper itself reports, and so also when it reports that it cannot: if
    the wrapper of the wrapper reports that it can, the sync branch runs.
    [sendSyncMessage] makes the own device objects and returns them; the
    array of the primary send holds a device for every own key, recipient or
    not; and for every own key the sync wrapper and the message are staged,
    the sync wrapper in an entry of its own where nothing was staged under
    its identifier. *)
Theorem sendMessageToDevices_wrapper_veto_missed
    (s : State) (devices : list PubKey) (m : Message) :
  canSync W m (Some m) = true ->
  canSync W (SyncMessage_from W (SyncMessage_from W m)) None = true ->
  mclass m <> SessionResetMessageC ->
  mclass (SyncMessage_from W m) <> SessionResetMessageC ->
  coherent devices ->
  (forall d, In d devices -> ref d < heap_next s) ->
  snd (sendSyncMessage W s (SyncMessage_from W m)) = Some (ownDevices W s)
  /\ map key (ownDevices W s) = getPairedDevicesFor W (getNumber W)
  /\ forall k,
       has_key (getPairedDevicesFor W (getNumber W)) k = true ->
       has_key (map key (primaryDevices W s devices)) k = true
       /\ is_staged
            (pendingMessageCache (fst (sendMessageToDevices W s (JsArray devices) m)))
            k (identifier (SyncMessage_from W m)) = true
       /\ is_staged
            (pendingMessageCache (fst (sendMessageToDevices W s (JsArray devices) m)))
            k (identifier m) = true
       /\ (is_staged (pendingMessageCache s) k (identifier (SyncMessage_from W m))
           = false ->
           In {| device := k; message := SyncMessage_from W m |}
             (pendingMessageCache
                (fst (sendMessageToDevices W s (JsArray devices) m)))).
Proof.
  intros Hsync Hwrap Hm Hsm Hco Hold.
  pose proof (sendMessageToDevices_syncs_cache s devices m Hsync Hwrap Hm Hsm)
    as Hcache.
  split; [rewrite (sendSyncMessage_syncs s _ Hwrap); reflexivity|].
  split; [apply map_key_ownDevices|].
  intros k Hk.
  assert (Hprim : has_key (map key (primaryDevices W s devices)) k = true).
  { rewrite primaryDevices_keys, Hk by assumption. apply orb_true_r. }
  split; [exact Hprim|]. rewrite Hcache.
  rewrite !is_staged_fold_cache_add, map_key_ownDevices, Hk, Hprim, !String.eqb_refl.
  split; [cbn [andb]; rewrite orb_true_r; reflexivity|].
  split; [cbn [andb]; rewrite orb_true_r; reflexivity|].
  intros Hst. apply In_fold_cache_add_mono, In_fold_cache_add_intro; [|exact Hst].
  rewrite map_key_ownDevices. exact Hk.
Qed.

End Queue.

(** *** The properties on the examples *)

Section QueueExamples.

Import Examples.

Lemma coherent_D1_D2 : coherent [D1; D2].
Proof.
  intros a b [<-|[<-|[]]] [<-|[<-|[]]] Href;
    first [reflexivity | discriminate Href].
Defined.

Lemma allocated_D1_D2 (c : list PendingEntry) :
  forall d, In d [D1; D2] -> ref d < heap_next (start c).
Proof. intros d [<-|[<-|[]]]; cbn; lia. Defined.

Lemma queues_allocated_start (c : list PendingEntry) : queues_allocated (start c).
Proof. intros r q Hq. cbn in Hq. rewrite lookup_empty in Hq. discriminate Hq. Defined.

(** The scenario of the specification: [m1] and [m2] are staged for [D1],
    which has no session. *)
Lemma processPending_session_gate_witness :
  jobQueues (processPending (world false true) (start [staged D1 m1; staged D1 m2]) D1)
  = ∅
  /\ sessionRequests
       (processPending (world false true) (start [staged D1 m1; staged D1 m2]) D1)
     = [D1]
  /\ pendingMessageCache
       (processPending (world false true) (start [staged D1 m1; staged D1 m2]) D1)
     = [staged D1 m1; staged D1 m2].
Proof.
  destruct (processPending_session_gate (world false true)
              (start [staged D1 m1; staged D1 m2]) D1 eq_refl eq_refl)
    as (Hq & Hr & Hc & _).
  rewrite Hq, Hr, Hc. repeat split.
Defined.

Lemma queue_session_reset_witness :
  queue (world true true) (start []) D1 sessionReset = start [].
Proof.
  exact (proj1 (queue_session_reset (world true true) (start []) D1 sessionReset eq_refl)).
Defined.

Lemma sendToGroup_closed_group_throws_witness :
  sendToGroup (world true true) (start []) closedGroup = (start [], Threw).
Proof.
  exact (sendToGroup_closed_group_throws (world true true) (start []) closedGroup eq_refl).
Defined.

Lemma sendToGroup_open_group_noop_witness :
  sendToGroup (world true true) (start []) openGroup = (start [], Returned).
Proof.
  exact (proj1 (sendToGroup_open_group_noop (world true true) (start []) openGroup eq_refl)).
Defined.

(** [D1] and [D1'] are two objects for the key ["D1"]. *)
Lemma getJobQueue_equal_keys_distinct_queues_witness :
  key D1 = key D1'
  /\ qref (snd (getJobQueue (start []) D1))
     <> qref (snd (getJobQueue (fst (getJobQueue (start []) D1)) D1')).
Proof.
  split; [reflexivity|].
  refine (proj1 (getJobQueue_equal_keys_distinct_queues (start []) D1 D1'
                   eq_refl _ (queues_allocated_start []) _)).
  - cbn. lia.
  - apply lookup_empty.
Defined.

Lemma processPending_equal_keys_duplicate_jobs_witness :
  exists q1 q2,
    jobQueues (processPending (world true true)
                 (processPending (world true true) (start [staged D1 m1]) D1) D1')
      !! ref D1 = Some q1
    /\ jobQueues (processPending (world true true)
                    (processPending (world true true) (start [staged D1 m1]) D1) D1')
         !! ref D1' = Some q2
    /\ qref q1 <> qref q2
    /\ JobQueue_has q1 "a" = true
    /\ JobQueue_has q2 "a" = true.
Proof.
  refine (processPending_equal_keys_duplicate_jobs (world true true)
            (start [staged D1 m1]) D1 D1' (staged D1 m1)
            eq_refl _ eq_refl eq_refl _ _ _ eq_refl).
  - cbn. lia.
  - apply lookup_empty.
  - apply lookup_empty.
  - left. reflexivity.
Defined.

(** Two calls of [sendUsingMultiDevice] to the user ["bob"], who owns [D1]:
    each call makes a device object of its own, the second pass finds [m1]
    still staged and submits it to the queue of the second object, and
    [MessageSender.send] is called twice on [m1]. *)
Lemma sendUsingMultiDevice_twice_sends_m1_twice :
  map entry_identifier
    (sent
       (fst (settle
          (fst (settle
             (fst (sendUsingMultiDevice (world_of true false false)
                (fst (sendUsingMultiDevice (world_of true false false)
                        (start []) Bob m1))
                Bob m2))
             4 Fulfilled))
          6 Fulfilled)))
  = ["a"; "a"].
Proof. vm_compute. reflexivity. Qed.

(** The scenario of the specification: once [D1] has a session,
    [processPending] queues [m1] then [m2]; the delivery of [m1] settles. *)
Lemma settle_removes_or_keeps_witness :
  (snd (settle (processPending (world true true)
                  (start [staged D1 m1; staged D1 m2]) D1) 0 Fulfilled) = Fulfilled
   /\ pendingMessageCache
        (fst (settle (processPending (world true true)
                        (start [staged D1 m1; staged D1 m2]) D1) 0 Fulfilled))
      = cache_remove [staged D1 m1; staged D1 m2] (staged D1 m1)
   /\ is_staged
        (pendingMessageCache
           (fst (settle (processPending (world true true)
                           (start [staged D1 m1; staged D1 m2]) D1) 0 Fulfilled)))
        "D1" "a" = false)
  /\ (snd (settle (processPending (world true true)
                     (start [staged D1 m1; staged D1 m2]) D1) 0 Rejected) = Fulfilled
      /\ pendingMessageCache
           (fst (settle (processPending (world true true)
                           (start [staged D1 m1; staged D1 m2]) D1) 0 Rejected))
         = [staged D1 m1; staged D1 m2])
  /\ sent (fst (settle (processPending (world true true)
                          (start [staged D1 m1; staged D1 m2]) D1) 0 Rejected))
     = [staged D1 m1].
Proof.
  destruct (settle_removes_or_keeps
              (processPending (world true true) (start [staged D1 m1; staged D1 m2]) D1)
              0 {| qref := 4; jobs := [staged D1 m1; staged D1 m2] |}
              (staged D1 m1) [staged D1 m2] eq_refl eq_refl)
    as (Hok & Hfail & Hsent).
  split; [exact Hok|]. split; [exact Hfail|]. exact (Hsent Rejected).
Defined.

Lemma settle_first_delivery_example :
  pendingMessageCache
    (fst (settle (processPending (world true true)
                    (start [staged D1 m1; staged D1 m2]) D1) 0 Fulfilled))
  = [staged D1 m2].
Proof. vm_compute. reflexivity. Qed.

(** The wrapper cannot sync: the recipients [D1] and [D2] get [m1]. *)
Lemma sendMessageToDevices_wrapper_cannot_sync_witness :
  sendSyncMessage (world true false) (start [])
    (SyncMessage_from (world true false) m1) = (start [], None)
  /\ sendMessageToDevices (world true false) (start []) (JsArray [D1; D2]) m1
     = (fold_left (fun s d => queue (world true false) s d m1) (baseUniq [D1; D2])
          (start []), Returned)
  /\ is_staged
       (pendingMessageCache
          (fst (sendMessageToDevices (world true false) (start [])
                  (JsArray [D1; D2]) m1))) "D2" "a"
     = is_staged [] "D2" "a"
       || (negb (instanceof m1 SessionResetMessageC)
           && has_key ["D1"; "D2"] "D2" && String.eqb "a" "a")
  /\ is_staged
       (pendingMessageCache
          (fst (sendMessageToDevices (world true false) (start [])
                  (JsArray [D1; D2]) m1))) "D3" "a"
     = is_staged [] "D3" "a"
       || (negb (instanceof m1 SessionResetMessageC)
           && has_key ["D1"; "D2"] "D3" && String.eqb "a" "a").
Proof.
  destruct (sendMessageToDevices_wrapper_cannot_sync (world true false) (start [])
              [D1; D2] m1 eq_refl eq_refl coherent_D1_D2) as (Hs & Hsend & _ & Hst).
  split; [exact Hs|]. split; [exact Hsend|].
  split; [exact (Hst "D2" "a")|exact (Hst "D3" "a")].
Defined.

(** The scenario of the specification: [m1] goes to [D1] and [D2], and the
    own devices are [D1] and [D3]. *)
Lemma sendMessageToDevices_sync_split_witness :
  is_staged
    (pendingMessageCache
       (fst (sendMessageToDevices (world true true) (start [])
               (JsArray [D1; D2]) m1))) "D3" "sync:a"
  = is_staged [] "D3" "sync:a"
    || (has_key ["D1"; "D3"] "D3" && String.eqb "sync:a" "sync:a")
    || (has_key (map key (primaryDevices (world true true) (start []) [D1; D2])) "D3"
        && String.eqb "a" "sync:a")
  /\ In {| device := "D3"; message := SyncMessage_from (world true true) m1 |}
       (pendingMessageCache
          (fst (sendMessageToDevices (world true true) (start [])
                  (JsArray [D1; D2]) m1)))
  /\ In {| device := "D3"; message := m1 |}
       (pendingMessageCache
          (fst (sendMessageToDevices (world true true) (start [])
                  (JsArray [D1; D2]) m1)))
  /\ has_key (map key (primaryDevices (world true true) (start []) [D1; D2])) "D2"
     = true
  /\ has_key (map key (primaryDevices (world true true) (start []) [D1; D2])) "D3"
     = true.
Proof.
  assert (Hm : mclass m1 <> SessionResetMessageC) by discriminate.
  assert (Hs : mclass (SyncMessage_from (world true true) m1) <> SessionResetMessageC)
    by discriminate.
  assert (Hid : identifier (SyncMessage_from (world true true) m1) <> identifier m1)
    by (intros H; vm_compute in H; discriminate H).
  destruct (sendMessageToDevices_sync_split (world true true) (start []) [D1; D2] m1
              eq_refl eq_refl eq_refl Hm Hs Hid coherent_D1_D2 (allocated_D1_D2 []))
    as (_ & _ & Hst & Hown & Hprim & _ & Hsym & _).
  split; [exact (Hst "D3" "sync:a")|].
  split; [exact (Hown "D3" eq_refl eq_refl)|].
  split; [exact (Hprim "D3" (Hsym "D3" eq_refl) eq_refl)|].
  split; [exact (Hsym "D2" eq_refl)|exact (Hsym "D3" eq_refl)].
Defined.

(** C1 as stated fails on the scenario of the specification,
    recipients [D1] and [D2] with own devices [D1] and [D3]: [m1] is staged
    for [D1], which is not in the symmetric difference, and [D3] gets both
    [m1] and the sync message. *)
Lemma sync_exclusion_counterexample :
  ~ sync_exclusion_as_specified (world true true) (start []) [D1; D2] m1
  /\ has_key (symmetricDifference ["D1"; "D2"] ["D1"; "D3"]) "D1" = false
  /\ is_staged
       (pendingMessageCache
          (fst (sendMessageToDevices (world true true) (start [])
                  (JsArray [D1; D2]) m1))) "D1" "a" = true
  /\ is_staged
       (pendingMessageCache
          (fst (sendMessageToDevices (world true true) (start [])
                  (JsArray [D1; D2]) m1))) "D3" "a" = true
  /\ is_staged
       (pendingMessageCache
          (fst (sendMessageToDevices (world true true) (start [])
                  (JsArray [D1; D2]) m1))) "D3" "sync:a" = true.
Proof.
  split; [|vm_compute; auto].
  intros (_ & Hprimary & _). specialize (Hprimary "D1").
  vm_compute in Hprimary. discriminate Hprimary.
Qed.

(** The sync wrapper of [m1] reports that it cannot sync, the wrapper
    [sendSyncMessage] builds around it reports that it can: the own device
    [D3], which is no recipient, gets the sync wrapper and [m1]. *)
Lemma sendMessageToDevices_wrapper_veto_missed_witness :
  canSync world_rewrap m1 (Some m1) = true
  /\ canSync world_rewrap (SyncMessage_from world_rewrap m1) None = false
  /\ has_key (map key [D1; D2]) "D3" = false
  /\ has_key (map key (primaryDevices world_rewrap (start []) [D1; D2])) "D3" = true
  /\ is_staged
       (pendingMessageCache
          (fst (sendMessageToDevices world_rewrap (start [])
                  (JsArray [D1; D2]) m1))) "D3" "a" = true
  /\ In {| device := "D3"; message := SyncMessage_from world_rewrap m1 |}
       (pendingMessageCache
          (fst (sendMessageToDevices world_rewrap (start [])
                  (JsArray [D1; D2]) m1))).
Proof.
  assert (Hm : mclass m1 <> SessionResetMessageC) by discriminate.
  assert (Hs : mclass (SyncMessage_from world_rewrap m1) <> SessionResetMessageC)
    by discriminate.
  destruct (sendMessageToDevices_wrapper_veto_missed world_rewrap (start [])
              [D1; D2] m1 eq_refl eq_refl Hm Hs coherent_D1_D2 (allocated_D1_D2 []))
    as (_ & _ & Hown).
  destruct (Hown "D3" eq_refl) as (Hprim & _ & Hmsg & Hentry).
  split; [reflexivity|]. split; [reflexivity|]. split; [reflexivity|].
  split; [exact Hprim|]. split; [exact Hmsg|exact (Hentry eq_refl)].
Defined.

(** C5 as stated fails where the sync wrapper reports that it cannot sync
    and the wrapper [sendSyncMessage] builds around it reports that it can:
    the sync branch runs, the own devices [D1] and [D3] get the sync
    wrapper, and [D3], which is no recipient, gets [m1]. *)
Lemma wrapper_veto_counterexample :
  ~ wrapper_veto_as_stated world_rewrap (start []) [D1; D2] m1
  /\ canSync world_rewrap m1 (Some m1) = true
  /\ canSync world_rewrap (SyncMessage_from world_rewrap m1) None = false
  /\ canSync world_rewrap
       (SyncMessage_from world_rewrap (SyncMessage_from world_rewrap m1)) None = true
  /\ has_key (map key [D1; D2]) "D3" = false
  /\ is_staged
       (pendingMessageCache
          (fst (sendMessageToDevices world_rewrap (start [])
                  (JsArray [D1; D2]) m1))) "D1" "sync:a" = true
  /\ is_staged
       (pendingMessageCache
          (fst (sendMessageToDevices world_rewrap (start [])
                  (JsArray [D1; D2]) m1))) "D3" "sync:a" = true
  /\ is_staged
       (pendingMessageCache
          (fst (sendMessageToDevices world_rewrap (start [])
                  (JsArray [D1; D2]) m1))) "D3" "a" = true.
Proof.
  split; [|vm_compute; repeat split; reflexivity].
  intros Hstated. destruct (Hstated eq_refl eq_refl) as (Hown & _).
  specialize (Hown "D3" eq_refl). vm_compute in Hown. discriminate Hown.
Qed.

End QueueExamples.

(** *** Further properties of the queue *)

Section QueueMore.

Lemma sendToGroup_fst (W : Collaborators) (s : State) (m : Message) :
  fst (sendToGroup W s m) = s.
Proof. unfold sendToGroup, instanceof. destruct (mclass m); reflexivity. Qed.

(** X2: [sendToGroup] changes nothing, whatever the message: for a closed
    group message it throws before anything is staged, for an open group
    message and for any other message it returns at once.  It throws exactly
    on the closed group messages. *)
Theorem sendToGroup_state_unchanged (W : Collaborators) (s : State) (m : Message) :
  fst (sendToGroup W s m) = s
  /\ (snd (sendToGroup W s m) = Threw <-> mclass m = ClosedGroupMessageC).
Proof.
  split; [apply sendToGroup_fst|].
  unfold sendToGroup, instanceof.
  destruct (mclass m) eqn:Hclass; cbn;
    split; intros H; first [discriminate H | reflexivity].
Qed.

(** X3: when the message says it cannot sync, [sendMessageToDevices] reads
    no own device and stages the message for exactly the keys of the
    recipient array (for none of them when the message is a session reset);
    everything that was staged stays staged. *)
Theorem sendMessageToDevices_not_syncable
    (W : Collaborators) (s : State) (devices : list PubKey) (m : Message) :
  canSync W m (Some m) = false ->
  snd (sendMessageToDevices W s (JsArray devices) m) = Returned
  /\ forall k id,
       is_staged
         (pendingMessageCache (fst (sendMessageToDevices W s (JsArray devices) m)))
         k id
       = is_staged (pendingMessageCache s) k id
         || (negb (instanceof m SessionResetMessageC)
             && has_key (map key devices) k && String.eqb (identifier m) id).
Proof.
  intros Hsync. unfold sendMessageToDevices. rewrite Hsync. cbn [fst snd].
  split; [reflexivity|]. intros k id. apply is_staged_fold_queue.
Qed.

Lemma map_new_PubKey_cache (ks : list string) (s : State) :
  pendingMessageCache (fst (map_new_PubKey s ks)) = pendingMessageCache s.
Proof.
  destruct (map_new_PubKey_spec ks s) as (_ & _ & ->). reflexivity.
Qed.

(** X4: [sendUsingMultiDevice] with a message that cannot sync stages it
    for exactly the keys [Data.getPairedDevicesFor] gives for the user, and
    for no key when that list is empty. *)
Theorem sendUsingMultiDevice_not_syncable
    (W : Collaborators) (s : State) (user : PubKey) (m : Message) :
  canSync W m (Some m) = false ->
  forall k id,
    is_staged (pendingMessageCache (fst (sendUsingMultiDevice W s user m))) k id
    = is_staged (pendingMessageCache s) k id
      || (negb (instanceof m SessionResetMessageC)
          && has_key (getPairedDevicesFor W (key user)) k
          && String.eqb (identifier m) id).
Proof.
  intros Hsync k id. unfold sendUsingMultiDevice.
  pose proof (map_new_PubKey_spec (getPairedDevicesFor W (key user)) s) as (Hkeys & _ & _).
  pose proof (map_new_PubKey_cache (getPairedDevicesFor W (key user)) s) as Hcache.
  destruct (map_new_PubKey s (getPairedDevicesFor W (key user))) as [s1 ds].
  cbn [fst snd] in *.
  unfold sendMessageToDevices. rewrite Hsync. cbn [fst].
  rewrite is_staged_fold_queue, Hkeys, Hcache. reflexivity.
Qed.

(** X5: no call of [sendMessageToDevices] takes a staged message out of the
    pending store, whatever [devices] holds and whether the message syncs or
    not. *)
Theorem sendMessageToDevices_keeps_staged
    (W : Collaborators) (s : State) (devices : JsValue) (m : Message)
    (k id : string) :
  is_staged (pendingMessageCache s) k id = true ->
  is_staged (pendingMessageCache (fst (sendMessageToDevices W s devices m))) k id
  = true.
Proof.
  intros Hst. unfold sendMessageToDevices.
  destruct devices as [n|devices]; [exact Hst|].
  destruct (canSync W m (Some m)).
  - unfold sendSyncMessage.
    destruct (negb (canSync W (SyncMessage_from W (SyncMessage_from W m)) None)).
    + cbn [fst]. rewrite is_staged_fold_queue, Hst. reflexivity.
    + unfold getOurDevices.
      pose proof (map_new_PubKey_cache (getPairedDevicesFor W (getNumber W)) s) as Hc.
      destruct (map_new_PubKey s (getPairedDevicesFor W (getNumber W))) as [s1 ds].
      cbn [fst snd] in *.
      rewrite !is_staged_fold_queue, Hc, Hst. reflexivity.
  - cbn [fst]. rewrite is_staged_fold_queue, Hst. reflexivity.
Qed.

Lemma processPending_gate_open (W : Collaborators) (s : State) (d : PubKey) :
  gate_open W d = true ->
  processPending W s d
  = set_jobQueues (fst (getJobQueue s d))
      (<[ref d := fold_left (submit W) (cache_getForDevice (pendingMessageCache s) d)
                    (snd (getJobQueue s d))]>
         (jobQueues (fst (getJobQueue s d)))).
Proof.
  unfold gate_open, processPending. intros Hgate.
  rewrite <- negb_orb, Hgate. cbn [negb].
  destruct (getJobQueue s d). reflexivity.
Qed.

Lemma getJobQueue_old (s : State) (d : PubKey) (q : JobQueue) :
  jobQueues s !! ref d = Some q -> getJobQueue s d = (s, q).
Proof. intros Hq. unfold getJobQueue. rewrite Hq. reflexivity. Qed.

Lemma getJobQueue_fields (s : State) (d : PubKey) :
  pendingMessageCache (fst (getJobQueue s d)) = pendingMessageCache s
  /\ sessionRequests (fst (getJobQueue s d)) = sessionRequests s
  /\ sent (fst (getJobQueue s d)) = sent s.
Proof. unfold getJobQueue. destruct (jobQueues s !! ref d); auto. Qed.

Lemma processPending_gate_open_has (W : Collaborators) (s : State) (d : PubKey)
    (e : PendingEntry) :
  gate_open W d = true ->
  In e (cache_getForDevice (pendingMessageCache s) d) ->
  exists q, jobQueues (processPending W s d) !! ref d = Some q
            /\ JobQueue_has q (entry_identifier e) = true.
Proof.
  intros Hgate He. rewrite (processPending_gate_open W s d Hgate).
  eexists. state_simpl. rewrite lookup_insert_eq.
  split; [reflexivity|]. apply fold_submit_has, He.
Qed.

(** With the gate open, what a second pass for the same device object does
    over the same pending store. *)
Lemma processPending_again (W : Collaborators) (s : State) (d : PubKey) :
  gate_open W d = true ->
  exists q1,
    jobQueues (processPending W s d) !! ref d = Some q1
    /\ processPending W (processPending W s d) d
       = set_jobQueues (processPending W s d)
           (<[ref d :=
                {| qref := qref q1;
                   jobs := jobs q1
                           ++ List.filter
                                (fun m => negb (findsJob W (entry_identifier m)))
                                (cache_getForDevice (pendingMessageCache s) d) |}]>
              (jobQueues (processPending W s d))).
Proof.
  intros Hgate.
  rewrite (processPending_gate_open W (processPending W s d) d Hgate).
  rewrite processPending_cache.
  rewrite (processPending_gate_open W s d Hgate).
  destruct (getJobQueue s d) as [s1 q1]. cbn [fst snd].
  set (ms := cache_getForDevice (pendingMessageCache s) d).
  exists (fold_left (submit W) ms q1).
  split; [state_simpl; apply lookup_insert_eq|].
  rewrite (getJobQueue_old _ d (fold_left (submit W) ms q1))
    by (state_simpl; apply lookup_insert_eq).
  cbn [fst snd].
  rewrite (fold_submit_again W ms (fold_left (submit W) ms q1))
    by (intros e He; apply fold_submit_has, He).
  reflexivity.
Qed.

(** X1: with the gate open, a second pass of [processPending] for the same
    device object over the same pending store appends to the queue of the
    object one more job for each staged message that [jobQueue.has] does not
    find under its identifier, in order, and no job for a message it finds;
    every other queue, the pending store and the session requests stay as
    they are.  The source hands [add] a closure and no identifier, so what
    [has] finds is the queue class's matter: where it finds every job that
    is queued the second pass adds nothing, where it finds none the second
    pass queues every staged message a second time. *)
Theorem processPending_second_pass (W : Collaborators) (s : State) (d : PubKey) :
  gate_open W d = true ->
  exists q1,
    jobQueues (processPending W s d) !! ref d = Some q1
    /\ jobQueues (processPending W (processPending W s d) d)
       = <[ref d :=
             {| qref := qref q1;
                jobs := jobs q1
                        ++ List.filter
                             (fun m => negb (findsJob W (entry_identifier m)))
                             (cache_getForDevice (pendingMessageCache s) d) |}]>
           (jobQueues (processPending W s d))
    /\ pendingMessageCache (processPending W (processPending W s d) d)
       = pendingMessageCache s
    /\ sessionRequests (processPending W (processPending W s d) d)
       = sessionRequests (processPending W s d).
Proof.
  intros Hgate. destruct (processPending_again W s d Hgate) as (q1 & Hq1 & Heq).
  exists q1. split; [exact Hq1|]. rewrite Heq. state_simpl.
  split; [reflexivity|]. split; [apply processPending_cache|reflexivity].
Qed.

(** X6: when the device has a session or is a medium group,
    [processPending] leaves in the queue of the device object a job for the
    identifier of every message staged for the device.  Every job of that
    queue was there before or is one of these messages; no session request
    is made and the pending store is as before. *)
Theorem processPending_submits_staged (W : Collaborators) (s : State) (d : PubKey) :
  gate_open W d = true ->
  exists q,
    jobQueues (processPending W s d) !! ref d = Some q
    /\ (forall e, In e (cache_getForDevice (pendingMessageCache s) d) ->
                  JobQueue_has q (entry_identifier e) = true)
    /\ (forall j, In j (jobs q) ->
                  In j (jobs (snd (getJobQueue s d)))
                  \/ In j (cache_getForDevice (pendingMessageCache s) d))
    /\ sessionRequests (processPending W s d) = sessionRequests s
    /\ pendingMessageCache (processPending W s d) = pendingMessageCache s.
Proof.
  intros Hgate. rewrite (processPending_gate_open W s d Hgate).
  destruct (getJobQueue_fields s d) as (Hc & Hr & _).
  eexists. state_simpl. rewrite lookup_insert_eq.
  split; [reflexivity|]. split; [|split; [|split]].
  - intros e He. apply fold_submit_has, He.
  - intros j Hj. exact (fold_submit_jobs W _ _ _ Hj).
  - exact Hr.
  - exact Hc.
Qed.

Lemma getJobQueue_frame (s : State) (d : PubKey) (r : nat) :
  r <> ref d -> jobQueues (fst (getJobQueue s d)) !! r = jobQueues s !! r.
Proof.
  intros Hr. unfold getJobQueue.
  destruct (jobQueues s !! ref d); [reflexivity|].
  state_simpl. apply lookup_insert_ne. congruence.
Qed.

(** X7: [getJobQueue] is get-or-create on the device object: the queue it
    returns is the one the map then holds for the object, a second call for
    the same object returns that queue again and changes nothing, and the
    queues of all other objects are untouched. *)
Theorem getJobQueue_get_or_create (s : State) (d : PubKey) :
  jobQueues (fst (getJobQueue s d)) !! ref d = Some (snd (getJobQueue s d))
  /\ getJobQueue (fst (getJobQueue s d)) d = getJobQueue s d
  /\ (forall r, r <> ref d ->
                jobQueues (fst (getJobQueue s d)) !! r = jobQueues s !! r).
Proof.
  destruct (getJobQueue s d) as [s1 q1] eqn:H1. cbn [fst snd].
  unfold getJobQueue in H1.
  destruct (jobQueues s !! ref d) as [q|] eqn:Hq;
    inversion H1; subst s1 q1; clear H1; unfold getJobQueue; state_simpl.
  - rewrite Hq. auto.
  - rewrite lookup_insert_eq. split; [reflexivity|]. split; [reflexivity|].
    intros r Hr. apply lookup_insert_ne. congruence.
Qed.

Lemma existsb_same_entry_none (c : list PendingEntry) (d : PubKey) (m : Message) :
  cache_getForDevice c d = [] ->
  existsb (same_entry {| device := key d; message := m |}) c = false.
Proof.
  unfold cache_getForDevice, same_entry.
  induction c as [|a c IH]; cbn; [reflexivity|].
  rewrite (String.eqb_sym (key d)).
  destruct (String.eqb (device a) (key d)); [discriminate|].
  intros H. cbn. exact (IH H).
Qed.

Lemma cache_remove_absent (c : list PendingEntry) (e : PendingEntry) :
  existsb (same_entry e) c = false -> cache_remove c e = c.
Proof.
  unfold cache_remove. induction c as [|a c IH]; cbn; [reflexivity|].
  intros H. apply orb_false_iff in H. destruct H as [Ha Hc].
  rewrite Ha. cbn. f_equal. exact (IH Hc).
Qed.

Lemma same_entry_refl (e : PendingEntry) : same_entry e e = true.
Proof. unfold same_entry. rewrite !String.eqb_refl. reflexivity. Qed.

(** What [send] does to a device that has no queue and no staged message
    yet, when the message does not sync and the gate is open. *)
Lemma send_first_message (W : Collaborators) (s : State) (d : PubKey) (m : Message) :
  canSync W m (Some m) = false ->
  mclass m <> SessionResetMessageC ->
  gate_open W d = true ->
  jobQueues s !! ref d = None ->
  cache_getForDevice (pendingMessageCache s) d = [] ->
  fst (send W s d m)
  = set_jobQueues
      (set_heap_next
         (set_pendingMessageCache s
            (pendingMessageCache s ++ [{| device := key d; message := m |}]))
         (S (heap_next s)))
      (<[ref d := {| qref := heap_next s;
                     jobs := [{| device := key d; message := m |}] |}]>
         (jobQueues s)).
Proof.
  intros Hsync Hm Hgate Hq Hnone.
  unfold send, sendMessageToDevices. rewrite Hsync. cbn [fst fold_left].
  unfold queue. rewrite (instanceof_false _ _ Hm).
  rewrite (processPending_gate_open W _ d Hgate).
  rewrite getJobQueue_new by exact Hq. state_simpl.
  unfold cache_add. rewrite (existsb_same_entry_none _ d m Hnone).
  rewrite insert_insert_eq.
  unfold cache_getForDevice. rewrite List.filter_app.
  fold (cache_getForDevice (pendingMessageCache s) d). rewrite Hnone.
  cbn [List.filter device app]. rewrite String.eqb_refl.
  cbn [fold_left]. unfold submit, JobQueue_finds, JobQueue_has, JobQueue_add.
  cbn [jobs qref existsb app]. rewrite andb_false_r. reflexivity.
Qed.



(** *** The sync branch and repeated sends *)

(** X18: [sendSyncMessage] asks the wrapper it builds whether it can sync,
    and then queues the message it was given, not that wrapper: when the
    wrapper can sync, the argument is staged under its own identifier for
    exactly the own device keys (for none when it is a session reset), and
    the array returned holds one device for each own device key, in
    order. *)
Theorem sendSyncMessage_queues_argument (W : Collaborators) (s : State) (m : Message) :
  canSync W (SyncMessage_from W m) None = true ->
  (exists our,
     snd (sendSyncMessage W s m) = Some our
     /\ map key our = getPairedDevicesFor W (getNumber W))
  /\ forall k id,
       is_staged (pendingMessageCache (fst (sendSyncMessage W s m))) k id
       = is_staged (pendingMessageCache s) k id
         || (negb (instanceof m SessionResetMessageC)
             && has_key (getPairedDevicesFor W (getNumber W)) k
             && String.eqb (identifier m) id).
Proof.
  intros Hwrap. rewrite (sendSyncMessage_syncs W s m Hwrap). cbn [fst snd].
  split.
  - exists (ownDevices W s). split; [reflexivity|apply map_key_ownDevices].
  - intros k id. rewrite is_staged_fold_queue, map_key_ownDevices.
    unfold getOurDevices. rewrite map_new_PubKey_cache. reflexivity.
Qed.

Lemma cache_add_idem (c : list PendingEntry) (d : PubKey) (m : Message) :
  cache_add (cache_add c d m) d m = cache_add c d m.
Proof.
  unfold cache_add.
  destruct (existsb (same_entry {| device := key d; message := m |}) c) eqn:Hex.
  - rewrite Hex. reflexivity.
  - rewrite existsb_app. cbn [existsb]. rewrite same_entry_refl, orb_true_r.
    reflexivity.
Qed.

(** X19: sending a message that does not sync to the same device object a
    second time, while the gate is open, stages nothing new, makes no
    session request and touches no other queue; to the queue of the object
    it appends one more job for each message staged for the device that
    [jobQueue.has] does not find under its identifier, and none for a
    message it finds. *)
Theorem send_twice (W : Collaborators) (s : State) (d : PubKey) (m : Message) :
  canSync W m (Some m) = false ->
  mclass m <> SessionResetMessageC ->
  gate_open W d = true ->
  exists q1,
    jobQueues (fst (send W s d m)) !! ref d = Some q1
    /\ jobQueues (fst (send W (fst (send W s d m)) d m))
       = <[ref d :=
             {| qref := qref q1;
                jobs := jobs q1
                        ++ List.filter
                             (fun e => negb (findsJob W (entry_identifier e)))
                             (cache_getForDevice
                                (pendingMessageCache (fst (send W s d m))) d) |}]>
           (jobQueues (fst (send W s d m)))
    /\ pendingMessageCache (fst (send W (fst (send W s d m)) d m))
       = pendingMessageCache (fst (send W s d m))
    /\ sessionRequests (fst (send W (fst (send W s d m)) d m))
       = sessionRequests (fst (send W s d m))
    /\ is_staged (pendingMessageCache (fst (send W s d m))) (key d) (identifier m)
       = true.
Proof.
  intros Hsync Hm Hgate. unfold send, sendMessageToDevices. rewrite Hsync.
  cbn [fst fold_left]. unfold queue. rewrite (instanceof_false _ _ Hm).
  rewrite !processPending_cache. state_simpl. rewrite cache_add_idem.
  set (s1 := set_pendingMessageCache s (cache_add (pendingMessageCache s) d m)).
  assert (Hsame : set_pendingMessageCache (processPending W s1 d)
                    (cache_add (pendingMessageCache s) d m)
                  = processPending W s1 d).
  { pose proof (processPending_cache W s1 d) as Hc.
    destruct (processPending W s1 d). cbn in Hc. subst.
    reflexivity. }
  rewrite Hsame.
  destruct (processPending_again W s1 d Hgate) as (q1 & Hq1 & Heq).
  exists q1. split; [exact Hq1|]. rewrite Heq. state_simpl.
  split; [reflexivity|]. split; [reflexivity|]. split; [reflexivity|].
  rewrite is_staged_cache_add, !String.eqb_refl. apply orb_true_r.
Qed.

(** *** Start-up *)

Lemma processPending_has_mono (W : Collaborators) (s : State) (d : PubKey)
    (r : nat) (q : JobQueue) (id : string) :
  jobQueues s !! r = Some q ->
  JobQueue_has q id = true ->
  exists q', jobQueues (processPending W s d) !! r = Some q'
             /\ JobQueue_has q' id = true.
Proof.
  intros Hq Hhas. unfold processPending.
  destruct (negb (isMediumGroup W (key d)) && negb (hasSession W d)).
  - exists q. auto.
  - destruct (Nat.eq_dec r (ref d)) as [->|Hne].
    + rewrite (getJobQueue_old s d q Hq). state_simpl.
      rewrite lookup_insert_eq. eexists. split; [reflexivity|].
      apply fold_submit_has_mono, Hhas.
    + pose proof (getJobQueue_frame s d r Hne) as Hframe.
      destruct (getJobQueue s d) as [s1 q1]. cbn [fst snd] in *. state_simpl.
      rewrite lookup_insert_ne by congruence. rewrite Hframe.
      exists q. auto.
Qed.

Lemma processAllPending_has_mono (W : Collaborators) (devices : list PubKey)
    (s : State) (r : nat) (q : JobQueue) (id : string) :
  jobQueues s !! r = Some q ->
  JobQueue_has q id = true ->
  exists q', jobQueues (processAllPending W s devices) !! r = Some q'
             /\ JobQueue_has q' id = true.
Proof.
  unfold processAllPending. revert s q.
  induction devices as [|d devices IH]; intros s q Hq Hhas; cbn [fold_left].
  - exists q. auto.
  - destruct (processPending_has_mono W s d r q id Hq Hhas) as (q' & Hq' & Hhas').
    exact (IH _ _ Hq' Hhas').
Qed.

Lemma processAllPending_cache (W : Collaborators) (devices : list PubKey) (s : State) :
  pendingMessageCache (processAllPending W s devices) = pendingMessageCache s.
Proof.
  unfold processAllPending. revert s.
  induction devices as [|d devices IH]; intros s; cbn [fold_left]; [reflexivity|].
  rewrite IH. apply processPending_cache.
Qed.

(** X10: [processAllPending], the pass the constructor starts, leaves the
    pending store as it is, and for every device of the array whose gate is
    open it leaves a job for the identifier of every message staged for
    that device in the queue of the device object. *)
Theorem processAllPending_recovers (W : Collaborators) (s : State)
    (devices : list PubKey) (d : PubKey) (e : PendingEntry) :
  In d devices ->
  gate_open W d = true ->
  In e (cache_getForDevice (pendingMessageCache s) d) ->
  pendingMessageCache (processAllPending W s devices) = pendingMessageCache s
  /\ exists q,
       jobQueues (processAllPending W s devices) !! ref d = Some q
       /\ JobQueue_has q (entry_identifier e) = true.
Proof.
  intros Hd Hgate He. split; [apply processAllPending_cache|].
  revert s Hd He. induction devices as [|a devices IH]; intros s Hd He; [destruct Hd|].
  change (processAllPending W s (a :: devices))
    with (processAllPending W (processPending W s a) devices).
  destruct Hd as [->|Hd].
  - destruct (processPending_gate_open_has W s d e Hgate He) as (q & Hq & Hhas).
    exact (processAllPending_has_mono W devices _ _ q _ Hq Hhas).
  - apply IH; [exact Hd|]. rewrite processPending_cache. exact He.
Qed.

(** *** An invariant of the queues *)

Lemma submit_ids_NoDup (finds : string -> bool) (W : Collaborators)
    (q : JobQueue) (m : PendingEntry) :
  finds_as finds W ->
  NoDup (List.filter finds (map entry_identifier (jobs q))) ->
  NoDup (List.filter finds (map entry_identifier (jobs (submit W q m)))).
Proof.
  intros HW Hnd. unfold submit, JobQueue_finds. rewrite HW.
  destruct (finds (entry_identifier m)) eqn:Hf; cbn [andb].
  - destruct (JobQueue_has q (entry_identifier m)) eqn:Hhas; cbn [negb]; [exact Hnd|].
    unfold JobQueue_add. cbn [jobs]. rewrite map_app, List.filter_app.
    cbn [map List.filter]. rewrite Hf.
    apply NoDup_app. split; [exact Hnd|]. split; [|apply NoDup_singleton].
    intros id Hid Hin. apply list_elem_of_In in Hid, Hin.
    destruct Hin as [<-|[]].
    apply List.filter_In in Hid. destruct Hid as [Hid _].
    apply in_map_iff in Hid. destruct Hid as (j & Hj & Hin).
    assert (Hcontra : JobQueue_has q (entry_identifier m) = true).
    { unfold JobQueue_has. apply existsb_exists. exists j.
      split; [exact Hin|]. apply String.eqb_eq. exact Hj. }
    congruence.
  - cbn [negb]. unfold JobQueue_add. cbn [jobs]. rewrite map_app, List.filter_app.
    cbn [map List.filter]. rewrite Hf, app_nil_r. exact Hnd.
Qed.

Lemma fold_submit_ids_NoDup (finds : string -> bool) (W : Collaborators)
    (ms : list PendingEntry) (q : JobQueue) :
  finds_as finds W ->
  NoDup (List.filter finds (map entry_identifier (jobs q))) ->
  NoDup (List.filter finds (map entry_identifier (jobs (fold_left (submit W) ms q)))).
Proof.
  intros HW. revert q.
  induction ms as [|m ms IH]; intros q Hnd; cbn [fold_left]; [exact Hnd|].
  apply IH, submit_ids_NoDup; assumption.
Qed.

Lemma queue_ids_distinct_ext (finds : string -> bool) (s s' : State) :
  jobQueues s' = jobQueues s ->
  queue_ids_distinct finds s -> queue_ids_distinct finds s'.
Proof. intros Heq Hinv r q Hq. rewrite Heq in Hq. exact (Hinv r q Hq). Qed.

Section Invariant.

Variable finds : string -> bool.
Variable W : Collaborators.
Hypothesis HW : finds_as finds W.

Lemma processPending_ids_distinct (s : State) (d : PubKey) :
  queue_ids_distinct finds s -> queue_ids_distinct finds (processPending W s d).
Proof.
  intros Hinv. unfold processPending.
  destruct (negb (isMediumGroup W (key d)) && negb (hasSession W d)).
  - exact (queue_ids_distinct_ext finds s _ eq_refl Hinv).
  - pose proof (getJobQueue_frame s d) as Hframe.
    assert (Hq1 : NoDup (List.filter finds
                           (map entry_identifier (jobs (snd (getJobQueue s d)))))).
    { unfold getJobQueue.
      destruct (jobQueues s !! ref d) as [q|] eqn:Hq; cbn [snd jobs map List.filter].
      - exact (Hinv _ _ Hq).
      - apply NoDup_nil_2. }
    destruct (getJobQueue s d) as [s1 q1]. cbn [fst snd] in *.
    intros r q Hq. state_simpl_in Hq.
    destruct (Nat.eq_dec r (ref d)) as [->|Hne].
    + rewrite lookup_insert_eq in Hq. injection Hq as <-.
      apply fold_submit_ids_NoDup; assumption.
    + rewrite lookup_insert_ne in Hq by congruence.
      rewrite (Hframe r Hne) in Hq. exact (Hinv _ _ Hq).
Qed.

Lemma processAllPending_ids_distinct (devices : list PubKey) (s : State) :
  queue_ids_distinct finds s ->
  queue_ids_distinct finds (processAllPending W s devices).
Proof.
  unfold processAllPending. revert s.
  induction devices as [|d devices IH]; intros s Hinv; cbn [fold_left]; [exact Hinv|].
  apply IH, processPending_ids_distinct, Hinv.
Qed.

Lemma queue_ids_distinct_step_queue (s : State) (d : PubKey) (m : Message) :
  queue_ids_distinct finds s -> queue_ids_distinct finds (queue W s d m).
Proof.
  intros Hinv. unfold queue.
  destruct (instanceof m SessionResetMessageC); [exact Hinv|].
  apply processPending_ids_distinct.
  exact (queue_ids_distinct_ext finds s _ eq_refl Hinv).
Qed.

Lemma fold_queue_ids_distinct (ds : list PubKey) (s : State) (m : Message) :
  queue_ids_distinct finds s ->
  queue_ids_distinct finds (fold_left (fun s d => queue W s d m) ds s).
Proof.
  revert s. induction ds as [|d ds IH]; intros s Hinv; cbn [fold_left]; [exact Hinv|].
  apply IH, queue_ids_distinct_step_queue, Hinv.
Qed.

Lemma map_new_PubKey_ids_distinct (ks : list string) (s : State) :
  queue_ids_distinct finds s -> queue_ids_distinct finds (fst (map_new_PubKey s ks)).
Proof.
  intros Hinv. destruct (map_new_PubKey_spec ks s) as (_ & _ & ->).
  exact (queue_ids_distinct_ext finds s _ eq_refl Hinv).
Qed.

Lemma sendSyncMessage_ids_distinct (s : State) (m : Message) :
  queue_ids_distinct finds s -> queue_ids_distinct finds (fst (sendSyncMessage W s m)).
Proof.
  intros Hinv. unfold sendSyncMessage.
  destruct (negb (canSync W (SyncMessage_from W m) None)); [exact Hinv|].
  unfold getOurDevices.
  pose proof (map_new_PubKey_ids_distinct (getPairedDevicesFor W (getNumber W)) s Hinv)
    as Hnew.
  destruct (map_new_PubKey s (getPairedDevicesFor W (getNumber W))) as [s1 ds].
  cbn [fst] in *. apply fold_queue_ids_distinct, Hnew.
Qed.

Lemma sendMessageToDevices_ids_distinct (s : State) (devices : JsValue) (m : Message) :
  queue_ids_distinct finds s ->
  queue_ids_distinct finds (fst (sendMessageToDevices W s devices m)).
Proof.
  intros Hinv. unfold sendMessageToDevices.
  destruct devices as [n|devices]; [exact Hinv|].
  destruct (canSync W m (Some m)).
  - pose proof (sendSyncMessage_ids_distinct s (SyncMessage_from W m) Hinv) as Hs.
    destruct (sendSyncMessage W s (SyncMessage_from W m)) as [s1 our].
    cbn [fst] in *. apply fold_queue_ids_distinct, Hs.
  - cbn [fst]. apply fold_queue_ids_distinct, Hinv.
Qed.

End Invariant.

Lemma settle_ids_distinct (finds : string -> bool) (s : State) (r : nat) (o : Outcome) :
  queue_ids_distinct finds s -> queue_ids_distinct finds (fst (settle s r o)).
Proof.
  intros Hinv. unfold settle.
  destruct (jobQueues s !! r) as [q|] eqn:Hq; [|exact Hinv].
  destruct (jobs q) as [|j rest] eqn:Hjobs; [exact Hinv|].
  assert (Hrest : NoDup (List.filter finds (map entry_identifier rest))).
  { specialize (Hinv _ _ Hq). rewrite Hjobs in Hinv. cbn [map List.filter] in Hinv.
    destruct (finds (entry_identifier j)); [|exact Hinv].
    apply NoDup_cons in Hinv. apply Hinv. }
  assert (Hmap : queue_ids_distinct finds
            (set_jobQueues (set_sent s (sent s ++ [j]))
               (<[r := {| qref := qref q; jobs := rest |}]> (jobQueues s)))).
  { intros r' q' Hq'. state_simpl_in Hq'.
    destruct (Nat.eq_dec r' r) as [->|Hne].
    - rewrite lookup_insert_eq in Hq'. injection Hq' as <-. exact Hrest.
    - rewrite lookup_insert_ne in Hq' by congruence. exact (Hinv _ _ Hq'). }
  destruct o; cbn [promise_then promise_catch fst]; state_simpl.
  - exact (queue_ids_distinct_ext finds _ _ eq_refl Hmap).
  - exact Hmap.
Qed.


End QueueMore.

(** ** Part VI: properties of [OpenGroupUtils] *)

Section Strings.

Lemma append_nil_r (s : string) : String.append s EmptyString = s.
Proof.
  induction s as [|c s IH]; [reflexivity|].
  change (String c (String.append s EmptyString) = String c s).
  rewrite IH. reflexivity.
Qed.

Lemma append_nil_l (s : string) : String.append EmptyString s = s.
Proof. reflexivity. Qed.

Lemma append_cons (c : ascii) (s1 s2 : string) :
  String.append (String c s1) s2 = String c (String.append s1 s2).
Proof. reflexivity. Qed.

Lemma append_assoc (s1 s2 s3 : string) :
  String.append (String.append s1 s2) s3 = String.append s1 (String.append s2 s3).
Proof.
  induction s1 as [|c s1 IH]; [reflexivity|].
  rewrite !append_cons, IH. reflexivity.
Qed.

Lemma append_eq_nil (s1 s2 : string) :
  String.append s1 s2 = EmptyString -> s1 = EmptyString /\ s2 = EmptyString.
Proof.
  destruct s1; [intros H; split; [reflexivity|exact H]|].
  rewrite append_cons. discriminate.
Qed.

Lemma length_append (s1 s2 : string) :
  String.length (String.append s1 s2) = String.length s1 + String.length s2.
Proof.
  induction s1 as [|c s1 IH]; [reflexivity|].
  rewrite append_cons. cbn. rewrite IH. reflexivity.
Qed.

Lemma string_forallb_append (p : ascii -> bool) (s1 s2 : string) :
  string_forallb p (String.append s1 s2) = string_forallb p s1 && string_forallb p s2.
Proof.
  induction s1 as [|c s1 IH]; [reflexivity|].
  rewrite append_cons. cbn. rewrite IH. apply andb_assoc.
Qed.

End Strings.

Section Matching.

Lemma nullable_lang (r : regex) : nullable r = true <-> lang r EmptyString.
Proof.
  split.
  - induction r; cbn; intros H; try discriminate.
    + constructor.
    + apply andb_true_iff in H. destruct H as [H1 H2].
      change EmptyString with (String.append EmptyString EmptyString).
      constructor; auto.
    + apply orb_true_iff in H. destruct H as [H|H];
        [apply lang_Alt_l|apply lang_Alt_r]; auto.
    + constructor.
  - intros H. remember EmptyString as s eqn:Hs.
    induction H; cbn; try discriminate; try reflexivity.
    + apply append_eq_nil in Hs. destruct Hs as [-> ->].
      rewrite IHlang1, IHlang2; reflexivity.
    + rewrite IHlang; [reflexivity|exact Hs].
    + rewrite IHlang; [apply orb_true_r|exact Hs].
Qed.

Lemma deriv_sound (c : ascii) (r : regex) (s : string) :
  lang (deriv c r) s -> lang r (String c s).
Proof.
  revert s. induction r; cbn; intros s H.
  - inversion H.
  - inversion H.
  - destruct (Ascii.eqb c0 c) eqn:Hc; inversion H; subst.
    apply Ascii.eqb_eq in Hc. subst. constructor.
  - destruct (in_range lo hi c) eqn:Hc; inversion H; subst.
    constructor. exact Hc.
  - inversion H as [| | | | ? ? ? HL | ? ? ? HR | |]; subst.
    + inversion HL; subst. rewrite <- append_cons. constructor; auto.
    + destruct (nullable r1) eqn:Hn; [|inversion HR].
      change (String c s) with (String.append EmptyString (String c s)).
      constructor; [apply nullable_lang, Hn|auto].
  - inversion H; subst; [apply lang_Alt_l|apply lang_Alt_r]; auto.
  - inversion H; subst. rewrite <- append_cons. constructor; auto.
Qed.

Lemma deriv_complete (c : ascii) (r : regex) (s : string) :
  lang r (String c s) -> lang (deriv c r) s.
Proof.
  intros H. remember (String c s) as s' eqn:Hs. revert s Hs.
  induction H; intros t Ht; cbn; try discriminate.
  - injection Ht as -> <-. rewrite Ascii.eqb_refl. constructor.
  - injection Ht as -> <-. rewrite H. constructor.
  - destruct s1 as [|c1 s1].
    + assert (Hn : nullable r1 = true) by (apply nullable_lang; assumption).
      rewrite Hn. apply lang_Alt_r. apply IHlang2. exact Ht.
    + rewrite append_cons in Ht. injection Ht as -> <-.
      apply lang_Alt_l. constructor; auto.
  - apply lang_Alt_l. auto.
  - apply lang_Alt_r. auto.
  - destruct s1 as [|c1 s1].
    + apply IHlang2. exact Ht.
    + rewrite append_cons in Ht. injection Ht as -> <-.
      constructor; auto.
Qed.

Lemma matches_all_lang (r : regex) (s : string) :
  matches_all r s = true <-> lang r s.
Proof.
  revert r. induction s as [|c s IH]; intros r; cbn.
  - apply nullable_lang.
  - rewrite IH. split; [apply deriv_sound|apply deriv_complete].
Qed.

(** A prefix match is a split of the subject into a word of the language
    and a rest. *)
Lemma matches_prefix_lang (r : regex) (s : string) :
  matches_prefix r s = true
  <-> exists p q, s = String.append p q /\ lang r p.
Proof.
  revert r. induction s as [|c s IH]; intros r; cbn.
  - rewrite orb_false_r, nullable_lang. split.
    + intros H. exists EmptyString, EmptyString. auto.
    + intros (p & q & Hs & Hp). symmetry in Hs.
      apply append_eq_nil in Hs. destruct Hs as [-> _]. exact Hp.
  - rewrite orb_true_iff, IH, nullable_lang. split.
    + intros [H|(p & q & -> & Hp)].
      * exists EmptyString, (String c s). auto.
      * exists (String c p), q. split; [reflexivity|apply deriv_sound, Hp].
    + intros (p & q & Hs & Hp). destruct p as [|c' p].
      * left. exact Hp.
      * rewrite append_cons in Hs. injection Hs as <- ->.
        right. exists p, q. split; [reflexivity|apply deriv_complete, Hp].
Qed.

Lemma search_prefix (r : regex) (s : string) :
  matches_prefix r s = true -> search r s = true.
Proof. intros H. destruct s; cbn [search]; rewrite H; reflexivity. Qed.

End Matching.

Section ConversationId.

Lemma lang_Lit (s : string) : lang (Lit s) s.
Proof.
  induction s as [|c s IH]; cbn; [constructor|].
  change (String c s) with (String.append (String c EmptyString) s).
  constructor; [constructor|exact IH].
Qed.

Lemma lang_roomIdChar (c : ascii) :
  is_roomIdChar c = true -> lang roomIdChar (String c EmptyString).
Proof.
  unfold is_roomIdChar, roomIdChar. intros H.
  apply orb_true_iff in H. destruct H as [H|H];
    [apply orb_true_iff in H; destruct H as [H|H]|].
  - apply lang_Alt_l. constructor. exact H.
  - apply lang_Alt_r, lang_Alt_l. constructor. exact H.
  - apply Ascii.eqb_eq in H. subst c. apply lang_Alt_r, lang_Alt_r. constructor.
Qed.

Lemma lang_AtMost (n : nat) (s : string) :
  string_forallb is_roomIdChar s = true ->
  String.length s <= n ->
  lang (AtMost n roomIdChar) s.
Proof.
  revert s. induction n as [|n IH]; intros s Hall Hlen.
  - destruct s; [constructor|cbn in Hlen; lia].
  - destruct s as [|c s]; cbn [AtMost]; [apply lang_Alt_r; constructor|].
    cbn in Hall, Hlen. apply andb_true_iff in Hall. destruct Hall as [Hc Hall].
    apply lang_Alt_l.
    change (String c s) with (String.append (String c EmptyString) s).
    constructor; [apply lang_roomIdChar, Hc|apply IH; [exact Hall|lia]].
Qed.

(** A room identifier of 2 to 64 characters of the class is in the language
    of [roomIdV2Regex]. *)
Lemma lang_roomIdV2Regex (roomId : string) :
  2 <= String.length roomId <= 64 ->
  string_forallb is_roomIdChar roomId = true ->
  lang roomIdV2Regex roomId.
Proof.
  intros [Hlo Hhi] Hall.
  destruct roomId as [|a [|b rest]]; cbn in Hlo; try lia.
  cbn in Hall, Hhi.
  apply andb_true_iff in Hall. destruct Hall as [Ha Hall].
  apply andb_true_iff in Hall. destruct Hall as [Hb Hall].
  unfold roomIdV2Regex, Repeat.
  change (String a (String b rest))
    with (String.append (String a (String b EmptyString)) rest).
  constructor.
  - cbn [Exactly].
    change (String a (String b EmptyString))
      with (String.append (String a EmptyString)
              (String.append (String b EmptyString) EmptyString)).
    constructor; [apply lang_roomIdChar, Ha|].
    constructor; [apply lang_roomIdChar, Hb|constructor].
  - apply lang_AtMost; [exact Hall|]. cbn. lia.
Qed.

Lemma is_roomIdChar_not_at (c : ascii) :
  is_roomIdChar c = true -> Ascii.eqb c "@" = false.
Proof.
  intros H. destruct (Ascii.eqb c "@") eqn:Hc; [|reflexivity].
  apply Ascii.eqb_eq in Hc. subst c. discriminate H.
Qed.

Lemma string_forallb_impl (p q : ascii -> bool) (s : string) :
  (forall c, p c = true -> q c = true) ->
  string_forallb p s = true -> string_forallb q s = true.
Proof.
  intros Hpq. induction s as [|c s IH]; cbn; [reflexivity|].
  intros H. apply andb_true_iff in H. destruct H as [Hc Hs].
  rewrite (Hpq _ Hc), (IH Hs). reflexivity.
Qed.

(** [indexOf] finds the first ['@'] behind a prefix that holds none. *)
Lemma indexOf_from_append (a b : string) (c : ascii) (i : Z) :
  string_forallb (fun x => negb (Ascii.eqb x c)) a = true ->
  indexOf_from (String.append a (String c b)) c i
  = (i + Z.of_nat (String.length a))%Z.
Proof.
  revert i. induction a as [|x a IH]; intros i Hall.
  - rewrite append_nil_l. cbn. rewrite Ascii.eqb_refl. lia.
  - cbn in Hall. apply andb_true_iff in Hall. destruct Hall as [Hx Hall].
    rewrite append_cons. cbn [indexOf_from String.length].
    apply negb_true_iff in Hx. rewrite Hx, (IH _ Hall). lia.
Qed.

Lemma substring_0_append (b c : string) :
  substring 0 (String.length b) (String.append b c) = b.
Proof.
  induction b as [|x b IH].
  - destruct c; reflexivity.
  - rewrite append_cons. cbn. rewrite IH. reflexivity.
Qed.

Lemma substring_skip_append (a s : string) (m : nat) :
  substring (String.length a) m (String.append a s) = substring 0 m s.
Proof.
  induction a as [|x a IH]; [reflexivity|].
  rewrite append_cons. cbn. exact IH.
Qed.

Lemma substring_0_all (s : string) : substring 0 (String.length s) s = s.
Proof.
  rewrite <- (append_nil_r s) at 2. rewrite substring_0_append. reflexivity.
Qed.

(** [slice] between two indices cuts the middle part out, and [slice] from
    an index gives the rest. *)
Lemma slice_middle (a b c : string) :
  slice (String.append a (String.append b c))
    (Z.of_nat (String.length a))
    (Some (Z.of_nat (String.length a) + Z.of_nat (String.length b))%Z)
  = b.
Proof.
  unfold slice, clamp_index. rewrite !length_append.
  destruct (Z.ltb_spec (Z.of_nat (String.length a)) 0); [lia|].
  destruct (Z.ltb_spec (Z.of_nat (String.length a) + Z.of_nat (String.length b)) 0);
    [lia|].
  rewrite !Z.min_l by lia.
  replace (Z.to_nat (Z.max _ 0)) with (String.length b) by lia.
  rewrite Nat2Z.id, substring_skip_append. apply substring_0_append.
Qed.

Lemma slice_rest (a b : string) :
  slice (String.append a b) (Z.of_nat (String.length a)) None = b.
Proof.
  unfold slice, clamp_index. rewrite !length_append.
  destruct (Z.ltb_spec (Z.of_nat (String.length a)) 0); [lia|].
  rewrite !Z.min_l by lia.
  replace (Z.to_nat (Z.max _ 0)) with (String.length b) by lia.
  rewrite Nat2Z.id, substring_skip_append. apply substring_0_all.
Qed.

(** A conversation identifier built from a room identifier of the class and
    a server URL at whose first character the server pattern matches is
    recognised by [isOpenGroupV2]. *)
Lemma isOpenGroupV2_built (serverUrl roomId : string) :
  2 <= String.length roomId <= 64 ->
  string_forallb is_roomIdChar roomId = true ->
  matches_prefix openGroupV2ServerUrlRegex serverUrl = true ->
  isOpenGroupV2
    (String.append openGroupPrefix
       (String.append roomId (String.append "@" serverUrl))) = true.
Proof.
  intros Hlen Hall Hserver. unfold isOpenGroupV2. apply search_prefix.
  apply matches_prefix_lang in Hserver. destruct Hserver as (p & q & -> & Hp).
  apply matches_prefix_lang.
  exists (String.append openGroupPrefix
            (String.append roomId (String.append "@" p))), q.
  split.
  - rewrite !append_assoc. reflexivity.
  - unfold openGroupV2ConversationIdRegex.
    constructor; [apply lang_Lit|].
    constructor; [apply lang_roomIdV2Regex; assumption|].
    constructor; [constructor|exact Hp].
Qed.

(** C10 (as amended): for a room identifier of 2 to 64 characters of
    [[0-9a-z_]] and a server URL at whose first character a match of the
    server pattern starts, [getOpenGroupV2ConversationId] returns a
    conversation identifier, and [getOpenGroupV2FromConversationId] reads
    the server URL and the room identifier back from it. *)
Theorem conversationId_roundtrip (serverUrl roomId : string) :
  2 <= String.length roomId <= 64 ->
  string_forallb is_roomIdChar roomId = true ->
  matches_prefix openGroupV2ServerUrlRegex serverUrl = true ->
  getOpenGroupV2ConversationId serverUrl roomId
  = Ok (String.append openGroupPrefix
          (String.append roomId (String.append "@" serverUrl)))
  /\ getOpenGroupV2FromConversationId
       (String.append openGroupPrefix
          (String.append roomId (String.append "@" serverUrl)))
     = Ok {| serverUrl := serverUrl; roomId := roomId |}.
Proof.
  intros Hlen Hall Hserver. split.
  - unfold getOpenGroupV2ConversationId.
    assert (Hroom : search roomIdV2Regex roomId = true).
    { apply search_prefix, matches_prefix_lang.
      exists roomId, EmptyString. split; [symmetry; apply append_nil_r|].
      apply lang_roomIdV2Regex; assumption. }
    rewrite Hroom, (search_prefix _ _ Hserver). reflexivity.
  - unfold getOpenGroupV2FromConversationId.
    rewrite isOpenGroupV2_built by assumption.
    assert (Hat : indexOf
              (String.append openGroupPrefix
                 (String.append roomId (String.append "@" serverUrl))) "@"
            = (Z.of_nat (String.length openGroupPrefix)
               + Z.of_nat (String.length roomId))%Z).
    { unfold indexOf. rewrite <- append_assoc.
      change (String.append "@" serverUrl) with (String "@" serverUrl).
      rewrite indexOf_from_append, length_append; [lia|].
      rewrite string_forallb_append. apply andb_true_iff. split; [reflexivity|].
      apply (string_forallb_impl is_roomIdChar); [|exact Hall].
      intros c Hc. rewrite (is_roomIdChar_not_at c Hc). reflexivity. }
    rewrite Hat. f_equal. f_equal.
    + rewrite <- !append_assoc.
      replace (Z.of_nat (String.length openGroupPrefix)
               + Z.of_nat (String.length roomId) + 1)%Z
        with (Z.of_nat (String.length
                (String.append (String.append openGroupPrefix roomId) "@"))).
      * apply slice_rest.
      * rewrite !length_append. cbn [String.length]. lia.
    + apply slice_middle.
Qed.

End ConversationId.

(** The properties on examples. *)

Section ConversationIdExamples.

Lemma conversationId_roundtrip_witness :
  getOpenGroupV2FromConversationId "publicChat:main_room@https://example.org:8080"
  = Ok {| serverUrl := "https://example.org:8080"; roomId := "main_room" |}.
Proof.
  refine (proj2 (conversationId_roundtrip "https://example.org:8080" "main_room"
                   _ eq_refl eq_refl)).
  cbn. lia.
Defined.

(** C10 as stated fails for the server URL ["[::1]:8080"]:
    [match] finds the pattern at the ["1"], the identifier is built, and
    [isOpenGroupV2] rejects it, because behind the ['@'] the pattern must
    match at once. *)
Lemma conversationId_roundtrip_counterexample :
  ~ roundtrip_as_stated "[::1]:8080" "ab"
  /\ getOpenGroupV2ConversationId "[::1]:8080" "ab" = Ok "publicChat:ab@[::1]:8080"
  /\ getOpenGroupV2FromConversationId "publicChat:ab@[::1]:8080"
     = Throw "Not a v2 open group convo id".
Proof.
  split; [|split; vm_compute; reflexivity].
  intros Hround.
  destruct Hround as (cid & Hbuild & Hread);
    [cbn; lia|reflexivity|reflexivity|reflexivity|].
  vm_compute in Hbuild. injection Hbuild as <-.
  vm_compute in Hread. discriminate Hread.
Qed.

End ConversationIdExamples.

(** *** What the patterns accept *)

Section Acceptance.

Lemma search_lang (r : regex) (s : string) :
  search r s = true
  <-> exists a p b, s = String.append a (String.append p b) /\ lang r p.
Proof.
  induction s as [|c s IH]; cbn [search].
  - rewrite orb_false_r, matches_prefix_lang. split.
    + intros (p & q & Hs & Hp). exists EmptyString, p, q. auto.
    + intros (a & p & b & Hs & Hp). symmetry in Hs.
      apply append_eq_nil in Hs. destruct Hs as [_ Hs].
      apply append_eq_nil in Hs. destruct Hs as [-> _].
      exists EmptyString, EmptyString. auto.
  - rewrite orb_true_iff, matches_prefix_lang, IH. split.
    + intros [(p & q & Hs & Hp)|(a & p & b & -> & Hp)].
      * exists EmptyString, p, q. auto.
      * exists (String c a), p, b. auto.
    + intros (a & p & b & Hs & Hp). destruct a as [|x a].
      * left. exists p, b. auto.
      * rewrite append_cons in Hs. injection Hs as <- ->.
        right. exists a, p, b. auto.
Qed.

Lemma lang_Cat_inv (r1 r2 : regex) (s : string) :
  lang (Cat r1 r2) s ->
  exists s1 s2, s = String.append s1 s2 /\ lang r1 s1 /\ lang r2 s2.
Proof. intros H. inversion H; subst. eauto. Qed.

Lemma lang_Alt_inv (r1 r2 : regex) (s : string) :
  lang (Alt r1 r2) s -> lang r1 s \/ lang r2 s.
Proof. intros H. inversion H; subst; auto. Qed.

Lemma lang_Chr_inv (c : ascii) (s : string) :
  lang (Chr c) s -> s = String c EmptyString.
Proof. intros H. inversion H; subst. reflexivity. Qed.

Lemma lang_Range_inv (lo hi : ascii) (s : string) :
  lang (Range lo hi) s ->
  exists c, s = String c EmptyString /\ in_range lo hi c = true.
Proof. intros H. inversion H; subst. eauto. Qed.

Lemma lang_Empty_inv (s : string) : lang Empty s -> s = EmptyString.
Proof. intros H. inversion H; subst. reflexivity. Qed.

Lemma lang_Lit_inv (p s : string) : lang (Lit p) s -> s = p.
Proof.
  revert s. induction p as [|c p IH]; intros s H; cbn [Lit] in H.
  - apply lang_Empty_inv, H.
  - apply lang_Cat_inv in H. destruct H as (s1 & s2 & -> & H1 & H2).
    apply lang_Chr_inv in H1. subst s1. rewrite (IH _ H2). reflexivity.
Qed.

(** The words of a class of characters, [n] times and at most [n] times. *)
Lemma lang_Exactly_inv (P : ascii -> bool) (r : regex) :
  (forall s, lang r s -> exists c, s = String c EmptyString /\ P c = true) ->
  forall n s, lang (Exactly n r) s ->
    String.length s = n /\ string_forallb P s = true.
Proof.
  intros Hr. induction n as [|n IH]; intros s H; cbn [Exactly] in H.
  - apply lang_Empty_inv in H. subst. auto.
  - apply lang_Cat_inv in H. destruct H as (s1 & s2 & -> & H1 & H2).
    apply Hr in H1. destruct H1 as (c & -> & Hc).
    apply IH in H2. destruct H2 as [Hlen Hall].
    rewrite append_cons, append_nil_l. cbn. rewrite Hlen, Hc, Hall. auto.
Qed.

Lemma lang_AtMost_inv (P : ascii -> bool) (r : regex) :
  (forall s, lang r s -> exists c, s = String c EmptyString /\ P c = true) ->
  forall n s, lang (AtMost n r) s ->
    String.length s <= n /\ string_forallb P s = true.
Proof.
  intros Hr. induction n as [|n IH]; intros s H; cbn [AtMost] in H.
  - apply lang_Empty_inv in H. subst. auto.
  - apply lang_Alt_inv in H. destruct H as [H|H].
    + apply lang_Cat_inv in H. destruct H as (s1 & s2 & -> & H1 & H2).
      apply Hr in H1. destruct H1 as (c & -> & Hc).
      apply IH in H2. destruct H2 as [Hlen Hall].
      rewrite append_cons, append_nil_l. cbn. rewrite Hc, Hall. split; [lia|auto].
    + apply lang_Empty_inv in H. subst. cbn. split; [lia|auto].
Qed.

Lemma lang_Exactly_class (P : ascii -> bool) (r : regex) :
  (forall c, P c = true -> lang r (String c EmptyString)) ->
  forall s, string_forallb P s = true -> lang (Exactly (String.length s) r) s.
Proof.
  intros Hr. induction s as [|c s IH]; intros Hall; cbn; [constructor|].
  cbn in Hall. apply andb_true_iff in Hall. destruct Hall as [Hc Hall].
  change (String c s) with (String.append (String c EmptyString) s).
  constructor; [apply Hr, Hc|apply IH, Hall].
Qed.

Lemma lang_roomIdChar_inv (s : string) :
  lang roomIdChar s ->
  exists c, s = String c EmptyString /\ is_roomIdChar c = true.
Proof.
  unfold roomIdChar, is_roomIdChar. intros H.
  apply lang_Alt_inv in H. destruct H as [H|H];
    [|apply lang_Alt_inv in H; destruct H as [H|H]].
  - apply lang_Range_inv in H. destruct H as (c & -> & Hc).
    exists c. rewrite Hc. auto.
  - apply lang_Range_inv in H. destruct H as (c & -> & Hc).
    exists c. rewrite Hc, orb_true_r. auto.
  - apply lang_Chr_inv in H. subst. exists "_"%char. auto.
Qed.

(** The language of [roomIdV2Regex]: the words of 2 to 64 characters of the
    class. *)
Lemma lang_roomIdV2Regex_iff (s : string) :
  lang roomIdV2Regex s
  <-> 2 <= String.length s <= 64 /\ string_forallb is_roomIdChar s = true.
Proof.
  split; [|intros [Hlen Hall]; apply lang_roomIdV2Regex; assumption].
  unfold roomIdV2Regex, Repeat. intros H.
  apply lang_Cat_inv in H. destruct H as (s1 & s2 & -> & H1 & H2).
  apply (lang_Exactly_inv is_roomIdChar _ lang_roomIdChar_inv) in H1.
  apply (lang_AtMost_inv is_roomIdChar _ lang_roomIdChar_inv) in H2.
  destruct H1 as [Hl1 Ha1], H2 as [Hl2 Ha2].
  rewrite length_append, string_forallb_append, Ha1, Ha2. cbn in Hl2.
  split; [lia|reflexivity].
Qed.

Lemma heads_Empty (P : ascii -> bool) : heads P Empty.
Proof. intros s H. left. apply lang_Empty_inv, H. Qed.

Lemma heads_Chr (P : ascii -> bool) (c : ascii) : P c = true -> heads P (Chr c).
Proof. intros Hc s H. apply lang_Chr_inv in H. subst. right. eauto. Qed.

Lemma heads_Range (P : ascii -> bool) (lo hi : ascii) :
  (forall c, in_range lo hi c = true -> P c = true) -> heads P (Range lo hi).
Proof.
  intros Hr s H. apply lang_Range_inv in H. destruct H as (c & -> & Hc).
  right. eauto.
Qed.

Lemma heads_Alt (P : ascii -> bool) (r1 r2 : regex) :
  heads P r1 -> heads P r2 -> heads P (Alt r1 r2).
Proof. intros H1 H2 s H. apply lang_Alt_inv in H. destruct H; auto. Qed.

Lemma heads_Cat (P : ascii -> bool) (r1 r2 : regex) :
  heads P r1 -> heads P r2 -> heads P (Cat r1 r2).
Proof.
  intros H1 H2 s H. apply lang_Cat_inv in H. destruct H as (s1 & s2 & -> & L1 & L2).
  destruct (H1 _ L1) as [->|(c & b & -> & Hc)].
  - rewrite append_nil_l. auto.
  - right. exists c, (String.append b s2). auto.
Qed.

Lemma heads_Cat_strict (P : ascii -> bool) (r1 r2 : regex) :
  heads P r1 -> nullable r1 = false -> heads P (Cat r1 r2).
Proof.
  intros H1 Hn s H. apply lang_Cat_inv in H. destruct H as (s1 & s2 & -> & L1 & L2).
  destruct (H1 _ L1) as [->|(c & b & -> & Hc)].
  - apply nullable_lang in L1. congruence.
  - right. exists c, (String.append b s2). auto.
Qed.

Lemma heads_Star (P : ascii -> bool) (r : regex) : heads P r -> heads P (Star r).
Proof.
  intros Hr s H. remember (Star r) as r' eqn:Hr'.
  induction H; try discriminate; injection Hr' as ->.
  - auto.
  - destruct (Hr _ H) as [->|(c & b & -> & Hc)].
    + rewrite append_nil_l. auto.
    + right. exists c, (String.append b s2). auto.
Qed.

Lemma is_alnum_lower (c : ascii) : in_range "a" "z" c = true -> is_alnum c = true.
Proof. unfold is_alnum. intros ->. reflexivity. Qed.

Lemma is_alnum_upper (c : ascii) : in_range "A" "Z" c = true -> is_alnum c = true.
Proof. unfold is_alnum. intros ->. rewrite orb_true_r. reflexivity. Qed.

Lemma is_alnum_digit (c : ascii) : in_range "0" "9" c = true -> is_alnum c = true.
Proof. unfold is_alnum. intros ->. apply orb_true_r. Qed.

(** A word of the server pattern starts with a letter or a digit. *)
Lemma lang_server_head (u : string) :
  lang openGroupV2ServerUrlRegex u ->
  exists c b, u = String c b /\ is_alnum c = true.
Proof.
  assert (Hlower : heads is_alnum (Range "a" "z"))
    by (apply heads_Range, is_alnum_lower).
  assert (Hupper : heads is_alnum (Range "A" "Z"))
    by (apply heads_Range, is_alnum_upper).
  assert (Hdigit : heads is_alnum (Range "0" "9"))
    by (apply heads_Range, is_alnum_digit).
  assert (Ha : heads is_alnum alnum) by (repeat apply heads_Alt; assumption).
  assert (HA : heads is_alnum Alnum) by (repeat apply heads_Alt; assumption).
  assert (Hprot : heads is_alnum protocolRegex).
  { apply heads_Alt; [|apply heads_Empty].
    apply heads_Cat_strict; [|reflexivity].
    cbn [Lit]. apply heads_Cat_strict; [apply heads_Chr|]; reflexivity. }
  assert (Hhost : heads is_alnum hostnameRegex).
  { apply heads_Cat.
    - apply heads_Star. apply heads_Cat_strict; [|reflexivity].
      apply heads_Alt; [exact Ha|]. apply heads_Cat_strict; [exact Ha|reflexivity].
    - apply heads_Alt; [exact HA|]. apply heads_Cat_strict; [exact HA|reflexivity]. }
  intros H.
  assert (Hserver : heads is_alnum openGroupV2ServerUrlRegex).
  { apply heads_Cat; [exact Hprot|]. apply heads_Cat_strict; [exact Hhost|reflexivity]. }
  destruct (Hserver _ H) as [->|Hu]; [|exact Hu].
  apply nullable_lang in H. discriminate H.
Qed.

Lemma lang_server_alnum (c : ascii) :
  is_alnum c = true -> lang openGroupV2ServerUrlRegex (String c EmptyString).
Proof.
  intros Hc. unfold openGroupV2ServerUrlRegex.
  change (String c EmptyString)
    with (String.append EmptyString
            (String.append (String.append EmptyString (String c EmptyString))
               EmptyString)).
  constructor; [apply lang_Alt_r; constructor|].
  constructor; [|apply lang_Alt_r; constructor].
  unfold hostnameRegex. constructor; [apply lang_Star_nil|].
  apply lang_Alt_l. unfold Alnum, is_alnum in *.
  apply orb_true_iff in Hc. destruct Hc as [Hc|Hc];
    [apply orb_true_iff in Hc; destruct Hc as [Hc|Hc]|].
  - apply lang_Alt_r, lang_Alt_l. constructor. exact Hc.
  - apply lang_Alt_l. constructor. exact Hc.
  - apply lang_Alt_r, lang_Alt_r. constructor. exact Hc.
Qed.

Lemma has_alnum_iff (s : string) :
  has_alnum s = true
  <-> exists a c b, s = String.append a (String c b) /\ is_alnum c = true.
Proof.
  induction s as [|x s IH]; cbn [has_alnum].
  - split; [discriminate|]. intros (a & c & b & Hs & _). symmetry in Hs.
    apply append_eq_nil in Hs. destruct Hs as [_ Hs]. discriminate Hs.
  - rewrite orb_true_iff, IH. split.
    + intros [Hx|(a & c & b & -> & Hc)].
      * exists EmptyString, x, s. auto.
      * exists (String x a), c, b. auto.
    + intros (a & c & b & Hs & Hc). destruct a as [|y a].
      * rewrite append_nil_l in Hs. injection Hs as -> ->. auto.
      * rewrite append_cons in Hs. injection Hs as <- ->. right. eauto.
Qed.

(** [match] finds the server pattern in exactly the strings that hold a
    letter or a digit. *)
Lemma search_server (s : string) :
  search openGroupV2ServerUrlRegex s = has_alnum s.
Proof.
  apply eq_true_iff_eq. rewrite search_lang, has_alnum_iff. split.
  - intros (a & p & b & -> & Hp).
    apply lang_server_head in Hp. destruct Hp as (c & p' & -> & Hc).
    exists a, c, (String.append p' b). auto.
  - intros (a & c & b & -> & Hc).
    exists a, (String c EmptyString), b. split; [reflexivity|].
    apply lang_server_alnum, Hc.
Qed.

Lemma has_two_roomIdChars_tail (x : ascii) (t : string) :
  has_two_roomIdChars t = true -> has_two_roomIdChars (String x t) = true.
Proof.
  intros H. destruct t as [|y t]; [discriminate H|].
  cbn [has_two_roomIdChars] in *. rewrite H. apply orb_true_r.
Qed.

Lemma has_two_roomIdChars_iff (s : string) :
  has_two_roomIdChars s = true
  <-> exists a c1 c2 b,
        s = String.append a (String c1 (String c2 b))
        /\ is_roomIdChar c1 = true /\ is_roomIdChar c2 = true.
Proof.
  split.
  - induction s as [|x s IH]; [discriminate|].
    destruct s as [|y t]; [discriminate|].
    cbn [has_two_roomIdChars]. intros H. apply orb_true_iff in H.
    destruct H as [H|H].
    + apply andb_true_iff in H. exists EmptyString, x, y, t. tauto.
    + destruct (IH H) as (a & c1 & c2 & b & Hs & Hc).
      exists (String x a), c1, c2, b. rewrite append_cons, <- Hs. auto.
  - intros (a & c1 & c2 & b & -> & H1 & H2).
    induction a as [|x a IH].
    + rewrite append_nil_l. cbn [has_two_roomIdChars]. rewrite H1, H2. reflexivity.
    + rewrite append_cons. apply has_two_roomIdChars_tail, IH.
Qed.

(** [match] finds the room pattern in exactly the strings that hold two
    characters of the class side by side. *)
Lemma search_roomId (s : string) :
  search roomIdV2Regex s = has_two_roomIdChars s.
Proof.
  apply eq_true_iff_eq. rewrite search_lang, has_two_roomIdChars_iff. split.
  - intros (a & p & b & -> & Hp). apply lang_roomIdV2Regex_iff in Hp.
    destruct Hp as [[Hlo _] Hall].
    destruct p as [|c1 [|c2 p]]; cbn in Hlo; try lia.
    cbn in Hall. apply andb_true_iff in Hall. destruct Hall as [H1 Hall].
    apply andb_true_iff in Hall. destruct Hall as [H2 _].
    exists a, c1, c2, (String.append p b). auto.
  - intros (a & c1 & c2 & b & -> & H1 & H2).
    exists a, (String c1 (String c2 EmptyString)), b. split; [reflexivity|].
    apply lang_roomIdV2Regex_iff. cbn. rewrite H1, H2. split; [lia|reflexivity].
Qed.

End Acceptance.

(** *** Further properties of the identifiers *)

Section IdentifiersMore.

Lemma isOpenGroupV2_split (s : string) :
  isOpenGroupV2 s = true ->
  exists a rid c b,
    s = String.append a
          (String.append openGroupPrefix
             (String.append rid (String "@" (String c b))))
    /\ 2 <= String.length rid <= 64
    /\ string_forallb is_roomIdChar rid = true
    /\ is_alnum c = true.
Proof.
  unfold isOpenGroupV2. rewrite search_lang.
  intros (a & p & b & -> & Hp). unfold openGroupV2ConversationIdRegex in Hp.
  apply lang_Cat_inv in Hp. destruct Hp as (p1 & p' & -> & H1 & Hp).
  apply lang_Cat_inv in Hp. destruct Hp as (rid & p'' & -> & H2 & Hp).
  apply lang_Cat_inv in Hp. destruct Hp as (p3 & u & -> & H3 & H4).
  apply lang_Lit_inv in H1. apply lang_Chr_inv in H3. subst p1 p3.
  apply lang_roomIdV2Regex_iff in H2. destruct H2 as [Hlen Hall].
  apply lang_server_head in H4. destruct H4 as (c & u' & -> & Hc).
  exists a, rid, c, (String.append u' b).
  rewrite !append_assoc. auto.
Qed.

(** X12: [isOpenGroupV2] accepts exactly the strings that hold, anywhere,
    ["publicChat:"], then 2 to 64 characters of [[0-9a-z_]], then ['@'],
    then a letter or a digit.  What stands before and behind that is not
    looked at. *)
Theorem isOpenGroupV2_iff (s : string) :
  isOpenGroupV2 s = true
  <-> exists a rid c b,
        s = String.append a
              (String.append openGroupPrefix
                 (String.append rid (String "@" (String c b))))
        /\ 2 <= String.length rid <= 64
        /\ string_forallb is_roomIdChar rid = true
        /\ is_alnum c = true.
Proof.
  split; [apply isOpenGroupV2_split|].
  unfold isOpenGroupV2. rewrite search_lang.
  intros (a & rid & c & b & -> & Hlen & Hall & Hc).
  exists a,
    (String.append openGroupPrefix
       (String.append rid (String.append "@" (String c EmptyString)))), b.
  split; [rewrite !append_assoc; reflexivity|].
  unfold openGroupV2ConversationIdRegex.
  constructor; [apply lang_Lit|].
  constructor; [apply lang_roomIdV2Regex; assumption|].
  constructor; [constructor|apply lang_server_alnum, Hc].
Qed.

(** X13: [getOpenGroupV2ConversationId] throws "Invalid roomId" exactly when
    the room identifier holds no two characters of [[0-9a-z_]] side by
    side; otherwise it throws "Invalid serverUrl" exactly when the server
    URL holds no letter or digit; otherwise it returns the prefix, the room
    identifier, ['@'] and the server URL. *)
Theorem getOpenGroupV2ConversationId_accepts (serverUrl roomId : string) :
  getOpenGroupV2ConversationId serverUrl roomId
  = if negb (has_two_roomIdChars roomId) then
      Throw "getOpenGroupV2ConversationId: Invalid roomId"
    else if negb (has_alnum serverUrl) then
      Throw "getOpenGroupV2ConversationId: Invalid serverUrl"
    else
      Ok (String.append openGroupPrefix
            (String.append roomId (String.append "@" serverUrl))).
Proof.
  unfold getOpenGroupV2ConversationId.
  rewrite search_roomId, search_server. reflexivity.
Qed.

Lemma string_forallb_false (P : ascii -> bool) (s : string) :
  string_forallb P s = false ->
  exists x c y, s = String.append x (String c y)
                /\ string_forallb P x = true /\ P c = false.
Proof.
  induction s as [|a s IH]; cbn [string_forallb]; [discriminate|].
  intros H. destruct (P a) eqn:Ha.
  - cbn in H. destruct (IH H) as (x & c & y & -> & Hx & Hc).
    exists (String a x), c, y. cbn. rewrite Ha, Hx. auto.
  - exists EmptyString, a, s. auto.
Qed.

Lemma decode_at_first_at (x y : string) :
  string_forallb (fun c => negb (Ascii.eqb c "@")) x = true ->
  isOpenGroupV2
    (String.append openGroupPrefix (String.append x (String "@" y))) = true ->
  getOpenGroupV2FromConversationId
    (String.append openGroupPrefix (String.append x (String "@" y)))
  = Ok {| serverUrl := y; roomId := x |}.
Proof.
  intros Hx Hv. unfold getOpenGroupV2FromConversationId. rewrite Hv.
  assert (Hat : indexOf
            (String.append openGroupPrefix (String.append x (String "@" y))) "@"
          = (Z.of_nat (String.length openGroupPrefix)
             + Z.of_nat (String.length x))%Z).
  { unfold indexOf. rewrite <- append_assoc.
    rewrite indexOf_from_append, length_append; [lia|].
    rewrite string_forallb_append. apply andb_true_iff. split; [reflexivity|exact Hx]. }
  rewrite Hat. f_equal. f_equal.
  - change (String "@" y) with (String.append "@" y).
    rewrite <- !append_assoc.
    replace (Z.of_nat (String.length openGroupPrefix)
             + Z.of_nat (String.length x) + 1)%Z
      with (Z.of_nat (String.length
              (String.append (String.append openGroupPrefix x) "@"))).
    + apply slice_rest.
    + rewrite !length_append. cbn [String.length]. lia.
  - apply slice_middle.
Qed.

(** An accepted identifier behind the prefix is cut at its first ['@']. *)
Lemma decode_cut (t : string) :
  isOpenGroupV2 (String.append openGroupPrefix t) = true ->
  exists x y,
    t = String.append x (String "@" y)
    /\ string_forallb (fun c => negb (Ascii.eqb c "@")) x = true
    /\ getOpenGroupV2FromConversationId (String.append openGroupPrefix t)
       = Ok {| serverUrl := y; roomId := x |}.
Proof.
  intros Hv.
  assert (Hat : string_forallb (fun c => negb (Ascii.eqb c "@")) t = false).
  { pose proof Hv as Hv'. apply isOpenGroupV2_split in Hv'.
    destruct Hv' as (a & rid & c & b & Hs & _).
    apply (f_equal (string_forallb (fun c => negb (Ascii.eqb c "@")))) in Hs.
    rewrite !string_forallb_append in Hs. cbn [string_forallb] in Hs.
    rewrite Ascii.eqb_refl in Hs. cbn [negb andb] in Hs.
    rewrite !andb_false_r in Hs.
    destruct (string_forallb _ openGroupPrefix) eqn:Hp; [exact Hs|].
    discriminate Hp. }
  apply string_forallb_false in Hat. destruct Hat as (x & c & y & -> & Hx & Hc).
  apply negb_false_iff, Ascii.eqb_eq in Hc. subst c.
  exists x, y. split; [reflexivity|]. split; [exact Hx|].
  apply decode_at_first_at; assumption.
Qed.

(** X14: when [getOpenGroupV2FromConversationId] returns for an identifier
    that starts with ["publicChat:"], the identifier is that prefix, the room
    identifier returned, ['@'] and the server URL returned, and the room
    identifier returned holds no ['@']: the identifier is cut at its first
    ['@']. *)
Theorem getOpenGroupV2FromConversationId_rebuilds
    (t : string) (r : OpenGroupRequestCommonType) :
  getOpenGroupV2FromConversationId (String.append openGroupPrefix t) = Ok r ->
  String.append openGroupPrefix t
  = String.append openGroupPrefix
      (String.append (roomId r) (String.append "@" (serverUrl r)))
  /\ string_forallb (fun c => negb (Ascii.eqb c "@")) (roomId r) = true.
Proof.
  intros Hr.
  assert (Hv : isOpenGroupV2 (String.append openGroupPrefix t) = true).
  { unfold getOpenGroupV2FromConversationId in Hr.
    destruct (isOpenGroupV2 (String.append openGroupPrefix t));
      [reflexivity|discriminate Hr]. }
  destruct (decode_cut t Hv) as (x & y & -> & Hx & Hd).
  rewrite Hd in Hr. injection Hr as <-.
  cbn [roomId serverUrl]. split; [reflexivity|exact Hx].
Qed.

(** X17: reading back the identifier made of a room identifier and a server
    URL gives these two parts exactly when the room identifier holds no
    ['@'] and [isOpenGroupV2] accepts the identifier; in every other case
    it throws or gives other parts. *)
Theorem conversationId_roundtrip_iff (serverUrl roomId : string) :
  getOpenGroupV2FromConversationId
    (String.append openGroupPrefix
       (String.append roomId (String.append "@" serverUrl)))
  = Ok {| serverUrl := serverUrl; roomId := roomId |}
  <-> string_forallb (fun c => negb (Ascii.eqb c "@")) roomId = true
      /\ isOpenGroupV2
           (String.append openGroupPrefix
              (String.append roomId (String.append "@" serverUrl))) = true.
Proof.
  split.
  - intros Hr.
    assert (Hv : isOpenGroupV2
              (String.append openGroupPrefix
                 (String.append roomId (String.append "@" serverUrl))) = true).
    { unfold getOpenGroupV2FromConversationId in Hr.
      destruct (isOpenGroupV2 _); [reflexivity|discriminate Hr]. }
    split; [|exact Hv].
    destruct (decode_cut _ Hv) as (x & y & Heq & Hx & Hd).
    rewrite Hd in Hr. injection Hr as _ ->. exact Hx.
  - intros [Hx Hv]. apply decode_at_first_at; assumption.
Qed.

Lemma ends_with_alnum_split (s : string) :
  ends_with_alnum s = true ->
  exists a c, s = String.append a (String c EmptyString) /\ is_alnum c = true.
Proof.
  induction s as [|x s IH]; [discriminate|].
  destruct s as [|y t].
  - cbn. intros Hx. exists EmptyString, x. auto.
  - intros H. change (ends_with_alnum (String y t) = true) in H.
    destruct (IH H) as (a & c & Hs & Hc).
    exists (String x a), c. rewrite append_cons, <- Hs. auto.
Qed.

Lemma lang_publicKeyChar (c : ascii) :
  is_publicKeyChar c = true -> lang publicKeyChar (String c EmptyString).
Proof.
  unfold is_publicKeyChar, publicKeyChar. intros H.
  apply orb_true_iff in H. destruct H as [H|H];
    [apply lang_Alt_l|apply lang_Alt_r]; constructor; exact H.
Qed.

(** X15: the URL [getCompleteUrlFromRoom] builds is recognised by
    [openGroupV2CompleteURLRegex] when the server URL of the room ends with
    a letter or a digit, its room identifier has 2 to 64 characters of
    [[0-9a-z_]] and its public key has 64 characters of [[0-9a-z]]. *)
Theorem getCompleteUrlFromRoom_recognised (roomInfos : OpenGroupV2Room) :
  ends_with_alnum (room_serverUrl roomInfos) = true ->
  2 <= String.length (room_roomId roomInfos) <= 64 ->
  string_forallb is_roomIdChar (room_roomId roomInfos) = true ->
  String.length (serverPublicKey roomInfos) = 64 ->
  string_forallb is_publicKeyChar (serverPublicKey roomInfos) = true ->
  search openGroupV2CompleteURLRegex (getCompleteUrlFromRoom roomInfos) = true.
Proof.
  destruct roomInfos as [su rid pk]. cbn [room_serverUrl room_roomId serverPublicKey].
  intros Hsu Hlen Hall Hpl Hpk. unfold getCompleteUrlFromRoom.
  cbn [room_serverUrl room_roomId serverPublicKey].
  apply ends_with_alnum_split in Hsu. destruct Hsu as (a & c & -> & Hc).
  apply search_lang.
  exists a,
    (String.append (String c EmptyString)
       (String.append "/"
          (String.append rid
             (String.append "?" (String.append publicKeyParam pk))))),
    EmptyString.
  split.
  - rewrite append_nil_r, !append_assoc. reflexivity.
  - unfold openGroupV2CompleteURLRegex.
    constructor; [apply lang_server_alnum, Hc|].
    constructor; [constructor|].
    constructor; [apply lang_roomIdV2Regex; assumption|].
    constructor; [constructor|].
    constructor; [apply lang_Lit|].
    unfold publicKeyRegex, Repeat. rewrite <- (append_nil_r pk).
    constructor; [|constructor].
    rewrite <- Hpl. apply (lang_Exactly_class is_publicKeyChar);
      [apply lang_publicKeyChar|exact Hpk].
Qed.

Lemma matches_prefix_word (r : regex) (p s : string) :
  matches_all r p = true -> matches_prefix r (String.append p s) = true.
Proof.
  intros Hp. apply matches_prefix_lang. exists p, s.
  split; [reflexivity|apply matches_all_lang, Hp].
Qed.

(** X16: the result of [prefixify] always starts with ["http://"] or
    ["https://"]; it is the server itself, or the server behind
    ["https://"] or ["http://"] as [hasSSL] says; and [prefixify] leaves
    such a result as it is, whatever [hasSSL] is then. *)
Theorem prefixify_prefixed (server : string) (hasSSL hasSSL' : option bool) :
  matches_prefix httpPrefixRegex (prefixify server hasSSL) = true
  /\ prefixify (prefixify server hasSSL) hasSSL' = prefixify server hasSSL
  /\ (prefixify server hasSSL = server
      \/ (hasSSL <> Some false
          /\ prefixify server hasSSL = String.append "https://" server)
      \/ (hasSSL = Some false
          /\ prefixify server hasSSL = String.append "http://" server)).
Proof.
  assert (Hhas : matches_prefix httpPrefixRegex (prefixify server hasSSL) = true).
  { unfold prefixify.
    destruct (matches_prefix httpPrefixRegex server) eqn:Hp; [exact Hp|].
    destruct hasSSL as [[|]|].
    - apply (matches_prefix_word httpPrefixRegex "https://"). reflexivity.
    - apply (matches_prefix_word httpPrefixRegex "http://"). reflexivity.
    - apply (matches_prefix_word httpPrefixRegex "https://"). reflexivity. }
  split; [exact Hhas|]. split.
  - unfold prefixify at 1. rewrite Hhas. reflexivity.
  - unfold prefixify.
    destruct (matches_prefix httpPrefixRegex server); [left; reflexivity|].
    right. destruct hasSSL as [[|]|].
    + left. split; [discriminate|reflexivity].
    + right. split; reflexivity.
    + left. split; [discriminate|reflexivity].
Qed.

End IdentifiersMore.

(** *** The further properties on examples *)

Section MoreExamples.

Import Examples.

Lemma sendMessageToDevices_not_syncable_witness :
  is_staged
    (pendingMessageCache
       (fst (sendMessageToDevices (world_of true false false) (start [])
               (JsArray [D1; D2]) m1))) "D2" "a"
  = is_staged [] "D2" "a"
    || (negb (instanceof m1 SessionResetMessageC)
        && has_key ["D1"; "D2"] "D2" && String.eqb "a" "a").
Proof.
  exact (proj2 (sendMessageToDevices_not_syncable (world_of true false false)
                  (start []) [D1; D2] m1 eq_refl) "D2" "a").
Defined.

Lemma sendUsingMultiDevice_not_syncable_witness :
  is_staged
    (pendingMessageCache
       (fst (sendUsingMultiDevice (world_of true false false) (start []) Bob m1)))
    "D1" "a"
  = is_staged [] "D1" "a"
    || (negb (instanceof m1 SessionResetMessageC)
        && has_key ["D1"] "D1" && String.eqb "a" "a").
Proof.
  exact (sendUsingMultiDevice_not_syncable (world_of true false false)
           (start []) Bob m1 eq_refl "D1" "a").
Defined.

Lemma sendMessageToDevices_keeps_staged_witness :
  is_staged
    (pendingMessageCache
       (fst (sendMessageToDevices (world true true) (start [staged D2 m2])
               (JsArray [D1]) m1))) "D2" "b"
  = true.
Proof.
  exact (sendMessageToDevices_keeps_staged (world true true) (start [staged D2 m2])
           (JsArray [D1]) m1 "D2" "b" eq_refl).
Defined.

Lemma processPending_submits_staged_witness :
  exists q,
    jobQueues (processPending (world true true)
                 (start [staged D1 m1; staged D1 m2]) D1) !! ref D1 = Some q
    /\ JobQueue_has q "a" = true
    /\ JobQueue_has q "b" = true.
Proof.
  destruct (processPending_submits_staged (world true true)
              (start [staged D1 m1; staged D1 m2]) D1 eq_refl)
    as (q & Hq & Hall & _).
  exists q. split; [exact Hq|]. split.
  - apply (Hall (staged D1 m1)). left. reflexivity.
  - apply (Hall (staged D1 m2)). right. left. reflexivity.
Defined.



Lemma processAllPending_recovers_witness :
  exists q,
    jobQueues (processAllPending (world true true)
                 (start [staged D1 m1; staged D2 m2]) [D1; D2]) !! ref D2 = Some q
    /\ JobQueue_has q "b" = true.
Proof.
  refine (proj2 (processAllPending_recovers (world true true)
                   (start [staged D1 m1; staged D2 m2]) [D1; D2] D2 (staged D2 m2)
                   _ eq_refl _)).
  - right. left. reflexivity.
  - left. reflexivity.
Defined.

(** The four device objects of the examples are made one after the other. *)
Lemma reachable_start (finds : string -> bool) (c : list PendingEntry) :
  reachable finds (start c).
Proof.
  apply (reachable_step finds (set_heap_next (init c) 3)); [|apply step_new_PubKey].
  apply (reachable_step finds (set_heap_next (init c) 2)); [|apply step_new_PubKey].
  apply (reachable_step finds (set_heap_next (init c) 1)); [|apply step_new_PubKey].
  apply (reachable_step finds (init c)); [|apply step_new_PubKey].
  apply reachable_init.
Qed.


Lemma getOpenGroupV2FromConversationId_rebuilds_witness :
  String.append openGroupPrefix "main_room@https://example.org:8080"
  = String.append openGroupPrefix
      (String.append "main_room" (String.append "@" "https://example.org:8080"))
  /\ string_forallb (fun c => negb (Ascii.eqb c "@")) "main_room" = true.
Proof.
  exact (getOpenGroupV2FromConversationId_rebuilds
           "main_room@https://example.org:8080"
           {| serverUrl := "https://example.org:8080"; roomId := "main_room" |}
           eq_refl).
Defined.

Lemma getCompleteUrlFromRoom_recognised_witness :
  search openGroupV2CompleteURLRegex
    (getCompleteUrlFromRoom
       {| room_serverUrl := "https://example.org:8080";
          room_roomId := "main_room";
          serverPublicKey :=
            "0123456789abcdef0123456789abcdef0123456789abcdef0123456789abcdef" |})
  = true.
Proof.
  refine (getCompleteUrlFromRoom_recognised
            {| room_serverUrl := "https://example.org:8080";
               room_roomId := "main_room";
               serverPublicKey :=
                 "0123456789abcdef0123456789abcdef0123456789abcdef0123456789abcdef" |}
            eq_refl _ eq_refl eq_refl eq_refl).
  cbn. lia.
Defined.

(** Given the plain message [m1], [sendSyncMessage] stages [m1] itself
    for the own device [D3]. *)
Lemma sendSyncMessage_queues_argument_witness :
  is_staged
    (pendingMessageCache (fst (sendSyncMessage (world true true) (start []) m1)))
    "D3" "a"
  = is_staged [] "D3" "a"
    || (negb (instanceof m1 SessionResetMessageC)
        && has_key ["D1"; "D3"] "D3" && String.eqb "a" "a").
Proof.
  exact (proj2 (sendSyncMessage_queues_argument (world true true) (start []) m1
                  eq_refl) "D3" "a").
Defined.

(** The source's queue class is handed no identifier: where it finds no
    job, the second [send] queues a second job for [m1]. *)
Lemma send_twice_witness :
  jobQueues
    (fst (send (world_of true false false)
            (fst (send (world_of true false false) (start []) D1 m1)) D1 m1))
    !! ref D1
  = Some {| qref := 4; jobs := [staged D1 m1; staged D1 m1] |}.
Proof.
  assert (Hm : mclass m1 <> SessionResetMessageC) by discriminate.
  destruct (send_twice (world_of true false false) (start []) D1 m1
              eq_refl Hm eq_refl)
    as (q1 & Hq1 & Hjobs & _).
  rewrite Hjobs, lookup_insert_eq.
  vm_compute in Hq1. injection Hq1 as <-. reflexivity.
Defined.

(** Two passes over a store that holds [m1] and [m2] for [D1], with a queue
    class that finds the job for ["a"] and not the one for ["b"]: the
    second pass queues [m2] again and [m1] not. *)
Lemma processPending_second_pass_witness :
  jobQueues
    (processPending (finding (String.eqb "a") (world true true))
       (processPending (finding (String.eqb "a") (world true true))
          (start [staged D1 m1; staged D1 m2]) D1) D1)
    !! ref D1
  = Some {| qref := 4; jobs := [staged D1 m1; staged D1 m2; staged D1 m2] |}.
Proof.
  destruct (processPending_second_pass (finding (String.eqb "a") (world true true))
              (start [staged D1 m1; staged D1 m2]) D1 eq_refl)
    as (q1 & Hq1 & Hjobs & _).
  rewrite Hjobs, lookup_insert_eq.
  vm_compute in Hq1. injection Hq1 as <-. reflexivity.
Defined.

End MoreExamples.
